(** * prometheus_oracle_exporter: the custom query engine, the metric reset,
      the configuration loader, the timeout control and the connectivity
      probe parser, embedded from [main.go] and [testconn.go].

    The Go functions are translated into executable Rocq functions over an
    explicit exporter state.  Go's standard library ([strings], [strconv],
    [fmt]), [database/sql], logrus and the Prometheus client are not part of
    the repository; the parts the code calls are modelled here from their
    documented behaviour, each under a comment that says so.  The Unicode
    case tables [strings.ToLower] consults for non-ASCII strings are a
    parameter ([GoStrings.Unicode]): definitions and theorems hold for any
    tables, the examples at the end use ASCII names only. *)

From Stdlib Require Import ZArith QArith Qround List String Ascii Bool Lia.
From Stdlib Require Import Floats.SpecFloat DecimalString.
From stdpp Require Import gmap strings.

Open Scope string_scope.
Open Scope Z_scope.

(* ===================================================================== *)
(** ** Go strings (byte strings) and the [strings] package *)
(* ===================================================================== *)

Module GoStrings.

(** [len(s)] *)
Definition len (s : string) : Z := Z.of_nat (String.length s).

(** [strings.HasPrefix]. *)
Fixpoint HasPrefix (s prefix : string) : bool :=
  match prefix, s with
  | EmptyString, _ => true
  | String p prefix', String c s' => Ascii.eqb p c && HasPrefix s' prefix'
  | String _ _, EmptyString => false
  end.

(** [strings.Contains(s, substr)]. *)
Fixpoint Contains (s substr : string) : bool :=
  HasPrefix s substr ||
  match s with
  | EmptyString => false
  | String _ s' => Contains s' substr
  end.

Fixpoint rev_string (acc s : string) : string :=
  match s with
  | EmptyString => acc
  | String c s' => rev_string (String c acc) s'
  end.

(** [strings.HasSuffix(s, suffix)]. *)
Definition HasSuffix (s suffix : string) : bool :=
  HasPrefix (rev_string "" s) (rev_string "" suffix).

(** [strings.Replace(s, old, new, n)] for a non-empty [old]: the first [n]
    non-overlapping occurrences, all of them when [n < 0].  [skip] counts
    the bytes of a matched [old] still to be dropped.  (The source only
    calls it with a non-empty [old]; with an empty one this function
    returns [s] unchanged, where Go inserts [new] between the runes.) *)
Fixpoint Replace_from (old new : string) (n : Z) (skip : nat) (s : string) : string :=
  match s with
  | EmptyString => EmptyString
  | String c s' =>
      match skip with
      | S k => Replace_from old new n k s'
      | O =>
          if negb (n =? 0) && negb (String.eqb old "") && HasPrefix s old
          then new ++ Replace_from old new (if n <? 0 then n else n - 1)
                                   (String.length old - 1) s'
          else String c (Replace_from old new n O s')
      end
  end.

Definition Replace (s old new : string) (n : Z) : string :=
  Replace_from old new n O s.

(** [strings.Split(s, sep)] for a non-empty [sep] (the only use in the
    source).  [cur] is the current piece, reversed. *)
Fixpoint Split_from (sep : string) (skip : nat) (cur : string) (s : string) : list string :=
  match s with
  | EmptyString => [rev_string "" cur]
  | String c s' =>
      match skip with
      | S k => Split_from sep k cur s'
      | O =>
          if negb (String.eqb sep "") && HasPrefix s sep
          then rev_string "" cur :: Split_from sep (String.length sep - 1) "" s'
          else Split_from sep O (String c cur) s'
      end
  end.

Definition Split (s sep : string) : list string := Split_from sep O "" s.

(** [c < utf8.RuneSelf] for every byte [c] of [s]. *)
Fixpoint isASCII (s : string) : bool :=
  match s with
  | EmptyString => true
  | String c s' => Nat.ltb (nat_of_ascii c) 128 && isASCII s'
  end.

(** [if 'A' <= c && c <= 'Z' { c += 'a' - 'A' }] *)
Definition lower_byte (c : ascii) : ascii :=
  let n := nat_of_ascii c in
  if (Nat.leb 65 n && Nat.leb n 90)%bool then ascii_of_nat (n + 32) else c.

Fixpoint lower_bytes (s : string) : string :=
  match s with
  | EmptyString => EmptyString
  | String c s' => String (lower_byte c) (lower_bytes s')
  end.

(** What [strings.ToLower] returns for a string with a byte above 127:
    [strings.Map(unicode.ToLower, s)], which decodes [s] as UTF-8 and maps
    every rune through the Unicode case tables of the Go release.  The
    tables are not written out here: the program is verified for every
    function in their place. *)
Class Unicode := { Map_unicode_ToLower : string -> string }.

Section ToLower.

Context {unicode_tables : Unicode}.

(** [strings.ToLower]: a string of ASCII bytes is lower-cased byte by
    byte; any other string goes through the Unicode tables. *)
Definition ToLower (s : string) : string :=
  if isASCII s then lower_bytes s else Map_unicode_ToLower s.

End ToLower.

End GoStrings.

(* ===================================================================== *)
(** ** [strconv]: integers *)
(* ===================================================================== *)

Module Strconv.

Definition int64_min : Z := - 2 ^ 63.
Definition int64_max : Z := 2 ^ 63 - 1.

(** [strconv.Itoa]. *)
Definition Itoa (i : Z) : string := NilZero.string_of_int (Z.to_int i).

Inductive NumError := ErrSyntax | ErrRange.

Definition digit_of (c : ascii) : option Z :=
  let n := nat_of_ascii c in
  if (Nat.leb 48 n && Nat.leb n 57)%bool then Some (Z.of_nat n - 48) else None.

Fixpoint parse_digits (acc : Z) (s : string) : option Z :=
  match s with
  | EmptyString => Some acc
  | String c s' =>
      match digit_of c with
      | Some d => parse_digits (acc * 10 + d) s'
      | None => None
      end
  end.

(** [strconv.Atoi] on a 64-bit platform: an optional sign, then one or
    more decimal digits; a value outside [int64] is a range error. *)
Definition Atoi (s : string) : Z + NumError :=
  let '(neg, body) :=
    match s with
    | String "-" r => (true, r)
    | String "+" r => (false, r)
    | _ => (false, s)
    end in
  match body with
  | EmptyString => inr ErrSyntax
  | _ =>
      match parse_digits 0 body with
      | None => inr ErrSyntax
      | Some n =>
          let v := if neg : bool then - n else n in
          if (int64_min <=? v) && (v <=? int64_max) then inl v else inr ErrRange
      end
  end.

End Strconv.

(* ===================================================================== *)
(** ** float64 *)
(* ===================================================================== *)

(** A Go [float64] is an IEEE 754 binary64 value: [spec_float] with a 53-bit
    significand.  [S754_finite s m e] is [(-1)^s * m * 2^e]. *)
Module F64.

Definition float64 := spec_float.

Definition prec : Z := 53.
Definition emax : Z := 1024.

(** [float64(z)] for an integer [z]: the nearest binary64, ties to even. *)
Definition of_Z (z : Z) : float64 := binary_normalize prec emax z 0 false.

(** The value [m * 2^e], rounded to binary64. *)
Definition of_scaled (m e : Z) : float64 := binary_normalize prec emax m e false.

(** Go's [==] on float64. *)
Definition eqb (a b : float64) : bool := SFeqb a b.

(** [a / b] *)
Definition div (a b : float64) : float64 := SFdiv prec emax a b.

(** The integer part of a finite float (truncation toward zero). *)
Definition trunc (f : float64) : option Z :=
  match f with
  | S754_zero _ => Some 0
  | S754_finite s m e =>
      let a := if 0 <=? e then Z.pos m * 2 ^ e else Z.pos m / 2 ^ (- e) in
      Some (if s then - a else a)
  | S754_infinity _ | S754_nan => None
  end.

(** [int64(f)].  When the integer part does not fit (or [f] is NaN or
    infinite) the Go specification leaves the result to the
    implementation; this is the amd64 result, the smallest int64. *)
Definition to_int64 (f : float64) : Z :=
  match trunc f with
  | Some z =>
      if (Strconv.int64_min <=? z) && (z <=? Strconv.int64_max)
      then z else Strconv.int64_min
  | None => Strconv.int64_min
  end.

(** *** Shortest decimal digits

    [strconv.FormatFloat(f, fmt, -1, 64)] prints "the smallest number of
    digits necessary to represent the value uniquely": the shortest
    decimal that rounds back to [f], and the one nearest to [f] when both
    neighbours of that length do.  Modelled from that documentation with
    exact rational arithmetic. *)

Definition pow10 (k : Z) : Q := Qpower (10 # 1) k.
Definition pow2 (k : Z) : Q := Qpower (2 # 1) k.

(** [k] with [10^k <= v < 10^(k+1)], searched around an estimate from the
    binary exponent. *)
Definition decimal_exponent (m : positive) (e : Z) : Z :=
  let v := (inject_Z (Z.pos m) * pow2 e)%Q in
  let k0 := ((Z.log2 (Z.pos m) + e) * 30103) / 100000 in
  let ok k := Qle_bool (pow10 k) v && negb (Qle_bool (pow10 (k + 1)) v) in
  match List.find ok [k0 - 2; k0 - 1; k0; k0 + 1; k0 + 2] with
  | Some k => k
  | None => k0
  end.

(** The rounding interval of [m * 2^e]: every real strictly inside (or on
    the border, when [m] is even) rounds to it. *)
Definition round_interval (m : positive) (e : Z) : Q * Q * bool :=
  let mz := Z.pos m in
  let hi := (inject_Z (2 * mz + 1) * pow2 (e - 1))%Q in
  let lo :=
    if (mz =? 2 ^ (prec - 1)) && (3 - emax - prec <? e)
    then (inject_Z (4 * mz - 1) * pow2 (e - 2))%Q
    else (inject_Z (2 * mz - 1) * pow2 (e - 1))%Q in
  (lo, hi, Z.even mz).

Definition in_interval (i : Q * Q * bool) (x : Q) : bool :=
  let '(lo, hi, inclusive) := i in
  if inclusive then Qle_bool lo x && Qle_bool x hi
  else negb (Qle_bool x lo) && negb (Qle_bool hi x).

(** The candidate with [n] digits, as an integer count of units [10^p],
    if one of the two neighbours of that length rounds back. *)
Definition candidate (m : positive) (e k : Z) (n : Z) : option (Z * Z) :=
  let v := (inject_Z (Z.pos m) * pow2 e)%Q in
  let p := k - n + 1 in
  let s := (v / pow10 p)%Q in
  let fl := Qfloor s in
  let i := round_interval m e in
  if Qeq_bool (inject_Z fl) s then Some (fl, p)
  else
    let okdown := in_interval i (inject_Z fl * pow10 p)%Q in
    let okup := in_interval i (inject_Z (fl + 1) * pow10 p)%Q in
    let frac := (s - inject_Z fl)%Q in
    let up_nearer :=
      match Qcompare frac (1 # 2) with
      | Lt => false
      | Gt => true
      | Eq => Z.odd fl
      end in
    match okdown, okup with
    | true, true => Some (if up_nearer then fl + 1 else fl, p)
    | true, false => Some (fl, p)
    | false, true => Some (fl + 1, p)
    | false, false => None
    end.

Fixpoint shortest_from (m : positive) (e k : Z) (n : Z) (fuel : nat) : Z * Z :=
  match fuel with
  | O => (Qfloor (inject_Z (Z.pos m) * pow2 e / pow10 (k - n + 1))%Q, k - n + 1)
  | S fuel' =>
      match candidate m e k n with
      | Some c => c
      | None => shortest_from m e k (n + 1) fuel'
      end
  end.

(** Decimal digits of a non-negative integer, most significant first. *)
Definition digits_of (c : Z) : string := Strconv.Itoa c.

Fixpoint strip_zeros_rev (s : string) : string :=
  match s with
  | String "0" s' => strip_zeros_rev s'
  | _ => s
  end.

Definition strip_trailing_zeros (s : string) : string :=
  GoStrings.rev_string "" (strip_zeros_rev (GoStrings.rev_string "" s)).

(** The digits [d] and the decimal point position [dp] of the shortest
    representation: the value is [0.d * 10^dp]. *)
Definition shortest_digits (f : float64) : string * Z :=
  match f with
  | S754_finite _ m e =>
      let k := decimal_exponent m e in
      let '(c, p) := shortest_from m e k 1 17 in
      let ds := digits_of c in
      (strip_trailing_zeros ds, p + GoStrings.len ds)
  | _ => ("", 0)
  end.

Definition is_neg (f : float64) : bool :=
  match f with
  | S754_zero s | S754_infinity s | S754_finite s _ _ => s
  | S754_nan => false
  end.

Fixpoint zeros (n : nat) : string :=
  match n with O => "" | S n' => String "0" (zeros n') end.

(** [%e] of strconv: [d.ddde±dd], the exponent with at least two digits. *)
Definition fmtE (neg : bool) (d : string) (dp : Z) (prec : Z) : string :=
  let first := match d with String c _ => String c "" | EmptyString => "0" end in
  let rest := match d with String _ r => r | EmptyString => "" end in
  let more :=
    if 0 <? prec
    then ("." ++ rest ++ zeros (Z.to_nat (prec - GoStrings.len rest)))%string
    else "" in
  let exp := if String.eqb d "" then 0 else dp - 1 in
  let esign := if exp <? 0 then "-" else "+" in
  let a := Z.abs exp in
  let edigits := if a <? 10 then ("0" ++ Strconv.Itoa a)%string else Strconv.Itoa a in
  ((if neg then "-" else "") ++ first ++ more ++ "e" ++ esign ++ edigits)%string.

(** [%f] of strconv with [prec] digits after the point. *)
Definition fmtF (neg : bool) (d : string) (dp : Z) (prec : Z) : string :=
  let nd := GoStrings.len d in
  let int_part :=
    if 0 <? dp
    then (String.substring 0 (Z.to_nat (Z.min nd dp)) d
          ++ zeros (Z.to_nat (dp - Z.min nd dp)))%string
    else "0" in
  let digit_at (j : Z) : string :=
    if (0 <=? j) && (j <? nd) then String.substring (Z.to_nat j) 1 d else "0" in
  let frac :=
    if 0 <? prec
    then ("." ++ String.concat "" (List.map (fun i => digit_at (dp + Z.of_nat i))
                                           (List.seq 0 (Z.to_nat prec))))%string
    else "" in
  ((if neg then "-" else "") ++ int_part ++ frac)%string.

(** [strconv.FormatFloat(f, fmt, -1, 64)] for the verbs ['e'], ['f'] and
    ['g']; any other verb prints as [%] followed by the verb. *)
Definition FormatFloat (f : float64) (fmt : ascii) : string :=
  match f with
  | S754_nan => "NaN"
  | S754_infinity true => "-Inf"
  | S754_infinity false => "+Inf"
  | _ =>
      let '(d, dp) := shortest_digits f in
      let nd := GoStrings.len d in
      let neg := is_neg f in
      if Ascii.eqb fmt "e" then fmtE neg d dp (Z.max (nd - 1) 0)
      else if Ascii.eqb fmt "f" then fmtF neg d dp (Z.max (nd - dp) 0)
      else if Ascii.eqb fmt "g" then
        let exp := dp - 1 in
        if (exp <? -4) || (6 <=? exp) then fmtE neg d dp (nd - 1)
        else fmtF neg d dp (Z.max (nd - dp) 0)
      else String "%" (String fmt "")
  end.

End F64.

(** [fmt.Sprintf("%v", x)] for a float64 [x]: the verb [%v] prints a float
    as [%g] with the shortest precision. *)
Definition Sprintf_v_float64 (x : F64.float64) : string := F64.FormatFloat x "g".

(* ===================================================================== *)
(** ** The Prometheus client: metric vectors *)
(* ===================================================================== *)

(** [utf8.ValidString]: [s] is a sequence of well-formed UTF-8 encodings
    (no overlong form, no surrogate, nothing above U+10FFFF).  [pending]
    lists the ranges the continuation bytes still due must lie in. *)
Module Utf8.

Fixpoint ValidString_from (pending : list (nat * nat)) (s : string) : bool :=
  match s with
  | EmptyString => match pending with [] => true | _ :: _ => false end
  | String c s' =>
      let n := nat_of_ascii c in
      match pending with
      | (lo, hi) :: pending' =>
          Nat.leb lo n && Nat.leb n hi && ValidString_from pending' s'
      | [] =>
          if Nat.ltb n 128 then ValidString_from [] s'
          else if Nat.leb 194 n && Nat.leb n 223 then ValidString_from [(128, 191)%nat] s'
          else if Nat.eqb n 224 then ValidString_from [(160, 191); (128, 191)]%nat s'
          else if Nat.leb 225 n && Nat.leb n 236
               then ValidString_from [(128, 191); (128, 191)]%nat s'
          else if Nat.eqb n 237 then ValidString_from [(128, 159); (128, 191)]%nat s'
          else if Nat.leb 238 n && Nat.leb n 239
               then ValidString_from [(128, 191); (128, 191)]%nat s'
          else if Nat.eqb n 240
               then ValidString_from [(144, 191); (128, 191); (128, 191)]%nat s'
          else if Nat.leb 241 n && Nat.leb n 243
               then ValidString_from [(128, 191); (128, 191); (128, 191)]%nat s'
          else if Nat.eqb n 244
               then ValidString_from [(128, 143); (128, 191); (128, 191)]%nat s'
          else false
      end
  end.

Definition ValidString (s : string) : bool := ValidString_from [] s.

End Utf8.

(** Modelled from the client library (client_golang 1.11): a vector has a
    fixed list of variable label names and one float64 per tuple of label
    values; [With] and [WithLabelValues] "panic where [GetMetricWith] /
    [GetMetricWithLabelValues] would have returned an error".  For [With]
    that is when the number of labels differs from the declared one, a
    label value is not valid UTF-8, or a declared name is absent.
    [WithLabelValues] is modelled for label values that are valid UTF-8,
    where the error is the inconsistent number of values. *)
Module Prom.

Record MetricVec := {
  fqName : string;
  help : string;
  variableLabels : list string;
  metrics : gmap (list string) F64.float64
}.

Definition BuildFQName (namespace subsystem name : string) : string :=
  if String.eqb name "" then ""
  else if negb (String.eqb namespace "") && negb (String.eqb subsystem "")
       then (namespace ++ "_" ++ subsystem ++ "_" ++ name)%string
  else if negb (String.eqb namespace "") then (namespace ++ "_" ++ name)%string
  else if negb (String.eqb subsystem "") then (subsystem ++ "_" ++ name)%string
  else name.

(** [prometheus.NewGaugeVec(GaugeOpts{Namespace, Subsystem, Name, Help}, labels)] *)
Definition NewVec (namespace subsystem name hlp : string) (labels : list string) : MetricVec :=
  {| fqName := BuildFQName namespace subsystem name; help := hlp;
     variableLabels := labels; metrics := ∅ |}.

(** [v.WithLabelValues(lvs...)]: the series identity, or [None] for the
    panic on an inconsistent number of values. *)
Definition WithLabelValues (v : MetricVec) (lvs : list string) : option (list string) :=
  if Nat.eqb (List.length lvs) (List.length (variableLabels v)) then Some lvs else None.

(** [v.With(labels)]: the values in declaration order, or [None] for the
    panic. *)
Definition With (v : MetricVec) (labels : gmap string string) : option (list string) :=
  if Nat.eqb (size labels) (List.length (variableLabels v))
  then if bool_decide (map_Forall (fun _ val => Utf8.ValidString val = true) labels)
       then mapM (fun l => labels !! l) (variableLabels v)
       else None
  else None.

(** [.Set(x)] on the series found by [With]/[WithLabelValues]. *)
Definition Set_ (v : MetricVec) (key : list string) (x : F64.float64) : MetricVec :=
  {| fqName := fqName v; help := help v; variableLabels := variableLabels v;
     metrics := <[key := x]> (metrics v) |}.

(** [v.Reset()] deletes all series of the vector. *)
Definition Reset (v : MetricVec) : MetricVec :=
  {| fqName := fqName v; help := help v; variableLabels := variableLabels v;
     metrics := ∅ |}.

End Prom.

Abbreviation GaugeVec := Prom.MetricVec.
Abbreviation CounterVec := Prom.MetricVec.

(* ===================================================================== *)
(** ** database/sql *)
(* ===================================================================== *)

(** A cell as [rows.Scan] stores it into an [interface{}]: one of the
    dynamic types of [driver.Value]. *)
Inductive Value :=
| VNil
| VString (s : string)
| VFloat64 (f : F64.float64)
| VInt64 (i : Z)
| VBool (b : bool)
| VBytes (b : string)
| VTime (t : string).

(** A result set: the column names and the rows still to be fetched. *)
Record Rows := { Columns : list string; fetch : list (list Value) }.

(** What the database answers: [PingContext], the identity query of
    [Connect] scanned into two strings, and [QueryContext] per SQL text.
    [inr] carries the error. *)
Record DB := {
  PingContext : option string;
  QueryRow_Scan2 : string -> (string * string) + string;
  QueryContext : string -> Rows + string
}.

(** [rows.Scan(vals...)] with [len(vals) = len(cols)] destinations of type
    [*interface{}]: fails when the row has another number of columns. *)
Definition Scan (cols : list string) (row : list Value) : option (list Value) :=
  if Nat.eqb (List.length row) (List.length cols) then Some row else None.

(* ===================================================================== *)
(** ** Configuration ([main.go], second file part) *)
(* ===================================================================== *)

Record Alert := { File : string; Ignoreora : list string }.

Record Query := {
  Sql : string;
  Name : string;
  Metrics : list string;
  Labels : list string;
  Help : string
}.

Record Config := {
  Connection : string;
  Database : string;
  Instance : string;
  Alertlog : list Alert;
  Queries : list Query;
  db : option DB
}.

Record Configs := { Cfgs : list Config }.

(** The program, for any Unicode case tables behind [strings.ToLower]. *)
Section Embedding.

Context {unicode_tables : GoStrings.Unicode}.

(** Oracle gives us some ugly names back. This function cleans things up
    for Prometheus. *)
Definition cleanName (s : string) : string :=
  let s := GoStrings.Replace s " " "_" (-1) in
  let s := GoStrings.Replace s "(" "" (-1) in
  let s := GoStrings.Replace s ")" "" (-1) in
  let s := GoStrings.Replace s "/" "" (-1) in
  GoStrings.ToLower s.

Definition cleanIp (s : string) : string :=
  let s := GoStrings.Replace s ":" "" (-1) in
  GoStrings.Replace s "." "_" (-1).

(* ===================================================================== *)
(** ** The exporter ([main.go]) *)
(* ===================================================================== *)

(** Metric name parts. *)
Definition namespace : string := "oracledb".
Definition exporter_subsystem : string := "exporter".

(** Exporter collects Oracle DB metrics.  A [Gauge] or [Counter] is its
    float64 value. *)
Record Exporter := {
  duration : F64.float64;
  error : F64.float64;
  totalScrapes : F64.float64;
  scrapeErrors : CounterVec;
  session : GaugeVec;
  sysstat : GaugeVec;
  waitclass : GaugeVec;
  sysmetric : GaugeVec;
  interconnect : GaugeVec;
  uptime : GaugeVec;
  up : GaugeVec;
  tablespace : GaugeVec;
  recovery : GaugeVec;
  redo : GaugeVec;
  cache : GaugeVec;
  alertlog : GaugeVec;
  alertdate : GaugeVec;
  services : GaugeVec;
  parameter : GaugeVec;
  asmspace : GaugeVec;
  tablerows : GaugeVec;
  tablebytes : GaugeVec;
  indexbytes : GaugeVec;
  lobbytes : GaugeVec;
  lastIp : string;
  vTabRows : bool;
  vTabBytes : bool;
  vIndBytes : bool;
  vLobBytes : bool;
  vRecovery : bool;
  custom : gmap string GaugeVec;
  used_times : GaugeVec
}.

(** Field assignments [e.custom = c], [e.used_times = v], [e.up = v]. *)
Definition set_custom (e : Exporter) (c : gmap string GaugeVec) : Exporter :=
  {| duration := duration e; error := error e; totalScrapes := totalScrapes e;
     scrapeErrors := scrapeErrors e; session := session e; sysstat := sysstat e;
     waitclass := waitclass e; sysmetric := sysmetric e;
     interconnect := interconnect e; uptime := uptime e; up := up e;
     tablespace := tablespace e; recovery := recovery e; redo := redo e;
     cache := cache e; alertlog := alertlog e; alertdate := alertdate e;
     services := services e; parameter := parameter e; asmspace := asmspace e;
     tablerows := tablerows e; tablebytes := tablebytes e;
     indexbytes := indexbytes e; lobbytes := lobbytes e; lastIp := lastIp e;
     vTabRows := vTabRows e; vTabBytes := vTabBytes e; vIndBytes := vIndBytes e;
     vLobBytes := vLobBytes e; vRecovery := vRecovery e;
     custom := c; used_times := used_times e |}.

Definition set_used_times (e : Exporter) (v : GaugeVec) : Exporter :=
  {| duration := duration e; error := error e; totalScrapes := totalScrapes e;
     scrapeErrors := scrapeErrors e; session := session e; sysstat := sysstat e;
     waitclass := waitclass e; sysmetric := sysmetric e;
     interconnect := interconnect e; uptime := uptime e; up := up e;
     tablespace := tablespace e; recovery := recovery e; redo := redo e;
     cache := cache e; alertlog := alertlog e; alertdate := alertdate e;
     services := services e; parameter := parameter e; asmspace := asmspace e;
     tablerows := tablerows e; tablebytes := tablebytes e;
     indexbytes := indexbytes e; lobbytes := lobbytes e; lastIp := lastIp e;
     vTabRows := vTabRows e; vTabBytes := vTabBytes e; vIndBytes := vIndBytes e;
     vLobBytes := vLobBytes e; vRecovery := vRecovery e;
     custom := custom e; used_times := v |}.

Definition set_up (e : Exporter) (v : GaugeVec) : Exporter :=
  {| duration := duration e; error := error e; totalScrapes := totalScrapes e;
     scrapeErrors := scrapeErrors e; session := session e; sysstat := sysstat e;
     waitclass := waitclass e; sysmetric := sysmetric e;
     interconnect := interconnect e; uptime := uptime e; up := v;
     tablespace := tablespace e; recovery := recovery e; redo := redo e;
     cache := cache e; alertlog := alertlog e; alertdate := alertdate e;
     services := services e; parameter := parameter e; asmspace := asmspace e;
     tablerows := tablerows e; tablebytes := tablebytes e;
     indexbytes := indexbytes e; lobbytes := lobbytes e; lastIp := lastIp e;
     vTabRows := vTabRows e; vTabBytes := vTabBytes e; vIndBytes := vIndBytes e;
     vLobBytes := vLobBytes e; vRecovery := vRecovery e;
     custom := custom e; used_times := used_times e |}.

(** The label names of a custom query's vector, as [addCustomsql] declares
    them. *)
Definition custom_labels (query : Query) : list string :=
  (List.map cleanName (Labels query) ++ ["metric"; "database"; "dbinstance"; "rownum"])%list.

(** [addCustomsql]: one vector per query name; a later query of the same
    name replaces the earlier vector. *)
Definition addCustomsql_queries (qs : list Query) (c : gmap string GaugeVec)
  : gmap string GaugeVec :=
  List.fold_left
    (fun c query =>
       <[Name query :=
           Prom.NewVec namespace "" ("custom_" ++ cleanName (Name query))%string
                       (Help query) (custom_labels query)]> c)
    qs c.

Definition addCustomsql (config : Configs) (e : Exporter) : Exporter :=
  set_custom e
    (List.fold_left (fun c conn => addCustomsql_queries (Queries conn) c)
                    (Cfgs config) (custom e)).

Definition zero : F64.float64 := S754_zero false.

(** NewExporter returns a new Oracle DB exporter for the loaded
    configuration. *)
Definition NewExporter (config : Configs) : Exporter :=
  let gv name hlp labels := Prom.NewVec namespace "" name hlp labels in
  addCustomsql config
  {| duration := zero;
     totalScrapes := zero;
     scrapeErrors :=
       Prom.NewVec namespace exporter_subsystem "scrape_errors_total"
         "Total number of times an error occured scraping a Oracle database."
         ["collector"];
     error := zero;
     sysmetric := gv "sysmetric"
       "Gauge metric with read/write pysical IOPs/bytes (v$sysmetric)."
       ["database"; "dbinstance"; "type"];
     waitclass := gv "waitclass" "Gauge metric with Waitevents (v$waitclassmetric)."
       ["database"; "dbinstance"; "type"];
     sysstat := gv "sysstat" "Gauge metric with commits/rollbacks/parses (v$sysstat)."
       ["database"; "dbinstance"; "type"];
     session := gv "session"
       "Gauge metric user/system active/passive sessions (v$session)."
       ["database"; "dbinstance"; "type"; "state"];
     uptime := gv "uptime" "Gauge metric with uptime in days of the Instance."
       ["database"; "dbinstance"];
     tablespace := gv "tablespace" "Gauge metric with total/free size of the Tablespaces."
       ["database"; "dbinstance"; "type"; "name"; "contents"; "autoextend"];
     interconnect := gv "interconnect"
       "Gauge metric with interconnect block transfers (v$sysstat)."
       ["database"; "dbinstance"; "type"];
     recovery := gv "recovery"
       "Gauge metric with percentage usage of FRA (v$recovery_file_dest)."
       ["database"; "dbinstance"; "type"];
     redo := gv "redo"
       "Gauge metric with Redo log switches over last 5 min (v$log_history)."
       ["database"; "dbinstance"];
     cache := gv "cachehitratio" "Gauge metric witch Cache hit ratios (v$sysmetric)."
       ["database"; "dbinstance"; "type"];
     up := gv "up" "Whether the Oracle server is up." ["database"; "dbinstance"];
     alertlog := gv "error" "Oracle Errors occured during configured interval."
       ["database"; "dbinstance"; "code"; "description"; "ignore"];
     alertdate := gv "error_unix_seconds" "Unixtime of Alertlog modified Date."
       ["database"; "dbinstance"];
     services := gv "services" "Active Oracle Services (v$active_services)."
       ["database"; "dbinstance"; "name"];
     parameter := gv "parameter" "oracle Configuration Parameters (v$parameter)."
       ["database"; "dbinstance"; "name"];
     asmspace := gv "asmspace" "Gauge metric with total/free size of the ASM Diskgroups."
       ["database"; "dbinstance"; "type"; "name"];
     tablerows := gv "tablerows" "Gauge metric with rows of all Tables."
       ["database"; "dbinstance"; "owner"; "table_name"; "tablespace"];
     tablebytes := gv "tablebytes" "Gauge metric with bytes of all Tables."
       ["database"; "dbinstance"; "owner"; "table_name"];
     indexbytes := gv "indexbytes" "Gauge metric with bytes of all Indexes per Table."
       ["database"; "dbinstance"; "owner"; "table_name"];
     lobbytes := gv "lobbytes" "Gauge metric with bytes of all Lobs per Table."
       ["database"; "dbinstance"; "owner"; "table_name"];
     lastIp := ""; vTabRows := false; vTabBytes := false; vIndBytes := false;
     vLobBytes := false; vRecovery := false;
     custom := ∅;
     used_times := gv "collect_used_times" "this prometheus oracle exporter used time"
       ["ipport"; "svname"; "column"] |}.

(* ===================================================================== *)
(** ** Running code: the log, panics and non-local exits *)
(* ===================================================================== *)

Inductive PanicValue :=
| NilPointerDereference
| InconsistentLabels (vec : string).

Inductive LogLevel := InfoLevel | WarnLevel | ErrorLevel | FatalLevel.

Inductive LogMessage :=
| Text (s : string)
| Recovered (v : PanicValue).

Definition LogEntry : Type := LogLevel * LogMessage.

(** What a scrape function can change: the exporter and the log. *)
Record World := { exporter : Exporter; logged : list LogEntry }.

(** How a block of statements ends other than by falling through. *)
Inductive Signal :=
| BreakQueryLoop
| ReturnFromFunction
| Panic (v : PanicValue).

Definition M (A : Type) : Type := World -> (A + Signal) * World.

Definition ret {A} (a : A) : M A := fun w => (inl a, w).

Definition bind {A B} (m : M A) (k : A -> M B) : M B :=
  fun w =>
    match m w with
    | (inl a, w') => k a w'
    | (inr s, w') => (inr s, w')
    end.

Definition raise {A} (s : Signal) : M A := fun w => (inr s, w).

Definition get_exporter : M Exporter := fun w => (inl (exporter w), w).

Definition put_exporter (e : Exporter) : M unit :=
  fun w => (inl tt, {| exporter := e; logged := logged w |}).

Definition log_entry (l : LogLevel) (m : LogMessage) : M unit :=
  fun w => (inl tt, {| exporter := exporter w; logged := (logged w ++ [(l, m)])%list |}).

(** The end of the labelled loop [QueryLoop]: [break QueryLoop] inside it
    ends the loop and nothing else. *)
Definition QueryLoop_end (body : M unit) : M unit :=
  fun w =>
    match body w with
    | (inr BreakQueryLoop, w') => (inl tt, w')
    | r => r
    end.

(** [M] with stdpp's monad notations [x ← m; k] and [m;; k]. *)
#[global] Instance M_ret : MRet M := @ret.
#[global] Instance M_bind : MBind M := fun A B k m => bind m k.

(* ===================================================================== *)
(** ** ScrapeCustomQueries *)
(* ===================================================================== *)

(** [idx := -1; for i, col := range cols { if cleanName(name) ==
    cleanName(col) { idx = i; break } }] *)
Fixpoint columnIndex_from (i : Z) (name : string) (cols : list string) : Z :=
  match cols with
  | [] => -1
  | col :: cols' =>
      if String.eqb (cleanName name) (cleanName col) then i
      else columnIndex_from (i + 1) name cols'
  end.

Definition columnIndex (name : string) (cols : list string) : Z :=
  columnIndex_from 0 name cols.

(** [vals[i]] for an index the loops above produced. *)
Definition cell (vals : list Value) (i : Z) : Value :=
  List.nth (Z.to_nat i) vals VNil.

(** The label value of a cell (lines 335-347).  In the last branch the
    source formats [b], the variable of the failed [.(float64)] assertion,
    which holds the zero value. *)
Definition labelValue (v : Value) : string :=
  match v with
  | VString a => a
  | VFloat64 b =>
      if F64.eqb b (F64.of_Z (F64.to_int64 b))
      then Strconv.Itoa (F64.to_int64 b)
      else F64.FormatFloat b "e"
  | _ => Sprintf_v_float64 zero
  end.

(** [log.Warnf(" %s Label %s not found", query.Name, label)] *)
Definition label_not_found (query : Query) (label : string) : LogMessage :=
  Text (" " ++ Name query ++ " Label " ++ label ++ " not found")%string.

(** The world with further log entries. *)
Definition add_log (w : World) (entries : list LogEntry) : World :=
  {| exporter := exporter w; logged := (logged w ++ entries)%list |}.

(** The four labels every custom series carries (lines 314-318). *)
Definition fixed_labels (conn : Config) (metric : string) (rownum : Z)
  : gmap string string :=
  <["rownum" := Strconv.Itoa rownum]>
    (<["metric" := metric]>
       (<["dbinstance" := Instance conn]>
          (<["database" := Database conn]> ∅))).

Section CustomQueries.

Variable conn : Config.
Variable query : Query.
Variable cols : list string.

(** [for _, label := range query.Labels { ... }] *)
Fixpoint label_loop (vals : list Value) (labels : list string)
         (promLabels : gmap string string) : M (gmap string string) :=
  match labels with
  | [] => ret promLabels
  | label :: labels' =>
      let labelColumnIndex := columnIndex label cols in
      if labelColumnIndex =? -1 then
        (* missing Label skip this query *)
        log_entry WarnLevel (label_not_found query label);;
        raise BreakQueryLoop
      else
        label_loop vals labels'
          (<[cleanName label := labelValue (cell vals labelColumnIndex)]> promLabels)
  end.

(** [e.custom[query.Name].With(promLabels).Set(metricValue)] *)
Definition custom_set (promLabels : gmap string string) (metricValue : F64.float64)
  : M unit :=
  e ← get_exporter;
  match custom e !! Name query with
  | None => raise (Panic NilPointerDereference)
  | Some vec =>
      match Prom.With vec promLabels with
      | None => raise (Panic (InconsistentLabels (Prom.fqName vec)))
      | Some key =>
          put_exporter
            (set_custom e (<[Name query := Prom.Set_ vec key metricValue]> (custom e)))
      end
  end.

(** The body of [MetricLoop] for one metric name. *)
Definition metric_step (vals : list Value) (rownum : Z) (metric : string) : M unit :=
  let metricColumnIndex := columnIndex metric cols in
  if metricColumnIndex =? -1 then
    (* missing Metric can skip this metric *)
    ret tt
  else
    match cell vals metricColumnIndex with
    | VFloat64 metricValue =>
        let promLabels := fixed_labels conn metric rownum in
        promLabels ← label_loop vals (Labels query) promLabels;
        custom_set promLabels metricValue
    | _ => ret tt
    end.

(** [MetricLoop: for _, metric := range query.Metrics { ... }] *)
Fixpoint MetricLoop (vals : list Value) (rownum : Z) (metrics : list string) : M unit :=
  match metrics with
  | [] => ret tt
  | metric :: metrics' =>
      metric_step vals rownum metric;;
      MetricLoop vals rownum metrics'
  end.

(** [for rows.Next() { ... rownum++ }]; a [Scan] error breaks the loop. *)
Fixpoint row_loop (pending : list (list Value)) (rownum : Z) : M unit :=
  match pending with
  | [] => ret tt
  | row :: pending' =>
      match Scan cols row with
      | None => ret tt
      | Some vals =>
          MetricLoop vals rownum (Metrics query);;
          row_loop pending' (rownum + 1)
      end
  end.

End CustomQueries.

Section CustomQueriesOfTarget.

Variable conn : Config.
Variable database : DB.

(** [for _, query := range conn.Queries { ... }]; a query error returns
    from the function (line 277). *)
Fixpoint queries_loop (queries : list Query) : M unit :=
  match queries with
  | [] => ret tt
  | query :: queries' =>
      match QueryContext database (Sql query) with
      | inr _ => raise ReturnFromFunction
      | inl rows =>
          QueryLoop_end (row_loop conn query (Columns rows) (fetch rows) 1);;
          queries_loop queries'
      end
  end.

End CustomQueriesOfTarget.

(** ScrapeCustomQueries collects metrics from self defined queries from
    configuration file.  The deferred function recovers a panic and logs
    it; either way the function returns to its caller. *)
Definition ScrapeCustomQueries (conn : Config) (w : World) : World :=
  match db conn with
  | None => w
  | Some database =>
      match queries_loop conn database (Queries conn) w with
      | (inr (Panic v), w') =>
          {| exporter := exporter w';
             logged := (logged w' ++ [(ErrorLevel, Recovered v)])%list |}
      | (_, w') => w'
      end
  end.

(* ===================================================================== *)
(** ** resetAllMetrics and Connect *)
(* ===================================================================== *)

Definition resetAllMetrics (e : Exporter) : Exporter :=
  {| duration := duration e;
     error := error e;
     totalScrapes := totalScrapes e;
     scrapeErrors := scrapeErrors e;
     used_times := Prom.Reset (used_times e);
     up := Prom.Reset (up e);
     session := Prom.Reset (session e);
     sysstat := Prom.Reset (sysstat e);
     waitclass := Prom.Reset (waitclass e);
     sysmetric := Prom.Reset (sysmetric e);
     interconnect := Prom.Reset (interconnect e);
     tablespace := Prom.Reset (tablespace e);
     recovery := Prom.Reset (recovery e);
     redo := Prom.Reset (redo e);
     cache := Prom.Reset (cache e);
     uptime := Prom.Reset (uptime e);
     alertlog := Prom.Reset (alertlog e);
     alertdate := Prom.Reset (alertdate e);
     services := Prom.Reset (services e);
     parameter := Prom.Reset (parameter e);
     asmspace := Prom.Reset (asmspace e);
     tablerows := Prom.Reset (tablerows e);
     tablebytes := Prom.Reset (tablebytes e);
     indexbytes := Prom.Reset (indexbytes e);
     lobbytes := Prom.Reset (lobbytes e);
     lastIp := lastIp e; vTabRows := vTabRows e; vTabBytes := vTabBytes e;
     vIndBytes := vIndBytes e; vLobBytes := vLobBytes e; vRecovery := vRecovery e;
     custom := Prom.Reset <$> custom e |}.

Definition set_db (conf : Config) (d : option DB) : Config :=
  {| Connection := Connection conf; Database := Database conf;
     Instance := Instance conf; Alertlog := Alertlog conf;
     Queries := Queries conf; db := d |}.

Definition set_identity (conf : Config) (dbname inname : string) : Config :=
  {| Connection := Connection conf; Database := dbname; Instance := inname;
     Alertlog := Alertlog conf; Queries := Queries conf; db := db conf |}.

Section Connect.

(** [sql.Open("oracle", connection)]: the handle, or the error. *)
Variable sql_Open : string -> DB + string.

(** [e.up.WithLabelValues(conf.Database, conf.Instance).Set(x)] *)
Definition up_set (conf : Config) (x : F64.float64) : M unit :=
  e ← get_exporter;
  match Prom.WithLabelValues (up e) [Database conf; Instance conf] with
  | None => raise (Panic (InconsistentLabels (Prom.fqName (up e))))
  | Some key => put_exporter (set_up e (Prom.Set_ (up e) key x))
  end.

(** The goroutine [Connect] starts for one target; the result is the
    [conf] it sends on [openedConn]. *)
Definition connect_target (conf : Config) : M Config :=
  let conf := set_db conf None in
  if 0 <? GoStrings.len (Connection conf) then
    match sql_Open (Connection conf) with
    | inl d =>
        match PingContext d with
        | Some _ => ret conf
        | None =>
            let conf := set_db conf (Some d) in
            match QueryRow_Scan2 d
                    "select db_unique_name,instance_name from v$database,v$instance" with
            | inl (dbname, inname) =>
                let conf :=
                  if (GoStrings.len (Database conf) =? 0)
                     || (GoStrings.len (Instance conf) =? 0)
                  then set_identity conf dbname inname
                  else conf in
                up_set conf (F64.of_Z 1);;
                ret conf
            | inr err =>
                up_set conf (F64.of_Z 0);;
                log_entry ErrorLevel
                  (Text ("Error connecting to database: " ++ err)%string);;
                ret conf
            end
        end
    | inr _ => ret conf
    end
  else
    (* Dummy Connection *)
    up_set conf (F64.of_Z 0);;
    ret conf.

Fixpoint connect_targets (cfgs : list Config) : M (list Config) :=
  match cfgs with
  | [] => ret []
  | conf :: cfgs' =>
      c ← connect_target conf;
      cs ← connect_targets cfgs';
      ret (c :: cs)
  end.

(** Connect the DBs and gather Databasename and Instancename.  The
    goroutines are run one after the other, in the order of the
    configuration; the result lists what they send on the channel. *)
Definition Connect (config : Configs) : M (list Config) :=
  e ← get_exporter;
  put_exporter (resetAllMetrics e);;
  connect_targets (Cfgs config).

End Connect.

(* ===================================================================== *)
(** ** Process globals: loadConfig and the timeout routes *)
(* ===================================================================== *)

(** The package variables [config], [pwd] and [*timeout], the log, and the
    arguments of the [CloseConnection] goroutines started so far (that
    function is not in the sources read here). *)
Record Globals := {
  config : Configs;
  pwd : string;
  timeout : Z;
  closing : list Configs;
  glog : list LogEntry
}.

(** A call either returns or ends the process ([os.Exit]). *)
Inductive Outcome (A : Type) :=
| Returns (a : A) (g : Globals)
| Exits (code : Z) (g : Globals).
#[global] Arguments Returns {A} a g.
#[global] Arguments Exits {A} code g.

(** logrus [log.Fatalf]: "logs a message at level Fatal then the process
    will exit with status set to 1". *)
Definition log_Fatalf {A} (msg : string) (g : Globals) : Outcome A :=
  Exits 1 {| config := config g; pwd := pwd g; timeout := timeout g;
             closing := closing g;
             glog := (glog g ++ [(FatalLevel, Text msg)])%list |}.

Section LoadConfig.

(** The environment of one call: [filepath.Abs(filepath.Dir(os.Args[0]))],
    [ioutil.ReadFile] of the configuration file and [yaml.Unmarshal]; [inr] carries
    the error text. *)
Variable filepath_Abs : string + string.
Variable ReadFile : string + string.
Variable yaml_Unmarshal : string -> Configs + string.

Definition loadConfig (g : Globals) : Outcome bool :=
  match filepath_Abs with
  | inr err => log_Fatalf ("error: " ++ err)%string g
  | inl path =>
      let g := {| config := config g; pwd := path; timeout := timeout g;
                  closing := closing g; glog := glog g |} in
      match ReadFile with
      | inr err => log_Fatalf ("error: " ++ err)%string g
      | inl content =>
          match yaml_Unmarshal content with
          | inr err => log_Fatalf ("error: " ++ err)%string g
          | inl c =>
              let oldconfig := config g in
              Returns true
                {| config := c; pwd := pwd g; timeout := timeout g;
                   closing := (closing g ++ [oldconfig])%list; glog := glog g |}
          end
      end
  end.

Inductive ReloadBody :=
| ConfigJson (c : Configs)
| ReloadText (s : string).

(** The [/reloadConfig] route. *)
Definition reloadConfig (e : Exporter) (g : Globals)
  : Outcome (ReloadBody * Exporter) :=
  match loadConfig g with
  | Exits code g' => Exits code g'
  | Returns reload g' =>
      let g' := {| config := config g'; pwd := pwd g'; timeout := timeout g';
                   closing := closing g';
                   glog := (glog g' ++ [(InfoLevel,
                              Text ("reload Config,  " ++
                                    (if reload then "true" else "false"))%string)])%list |} in
      if reload
      then Returns (ConfigJson (config g'), addCustomsql (config g') e) g'
      else Returns (ReloadText " loadConfig: false", e) g'
  end.

End LoadConfig.

Inductive TimeoutBody :=
| AtoiErr (e : Strconv.NumError)
| TimeoutText (s : string).

(** The [/getTimeout] route. *)
Definition getTimeout (g : Globals) : string :=
  ("current timeout=" ++ Strconv.Itoa (timeout g))%string.

(** The [/setTimeout?v=...] route; [ts] is the value of the parameter [v]. *)
Definition setTimeout (ts : string) (g : Globals) : TimeoutBody * Globals :=
  match Strconv.Atoi ts with
  | inr err => (AtoiErr err, g)
  | inl t =>
      if (t >=? 15) || (t <=? 1) then
        (TimeoutText "bad timeout, 1<v<15", g)
      else
        let g' := {| config := config g; pwd := pwd g; timeout := t;
                     closing := closing g; glog := glog g |} in
        (TimeoutText ("ok, timeout=" ++ Strconv.Itoa (timeout g'))%string, g')
  end.

(* ===================================================================== *)
(** ** The connectivity probe ([testconn.go]) *)
(* ===================================================================== *)

Definition splitConnStr (str : string) : string * string :=
  let ipport := "??" in
  let svname := "???" in
  let sts := GoStrings.Split str "@" in
  if (2 <=? List.length sts)%nat then
    let ips := GoStrings.Split (List.nth 1 sts "") "/" in
    if (2 <=? List.length ips)%nat then
      let ipport := List.nth 0 ips "" in
      let dbs := GoStrings.Split (List.nth 1 ips "") "?" in
      if (1 <=? List.length dbs)%nat then (ipport, List.nth 0 dbs "")
      else (ipport, svname)
    else (ipport, svname)
  else (ipport, svname).

Definition newline : string := String (ascii_of_nat 10) "".

Section ExecConn.

(** [strconv.ParseFloat(s, 64)]: the value, or the error. *)
Variable ParseFloat : string -> F64.float64 + string.

(** [e.used_times.WithLabelValues(lvs...).Set(x)] *)
Definition used_times_set (lvs : list string) (x : F64.float64) : M unit :=
  e ← get_exporter;
  match Prom.WithLabelValues (used_times e) lvs with
  | None => raise (Panic (InconsistentLabels (Prom.fqName (used_times e))))
  | Some key => put_exporter (set_used_times e (Prom.Set_ (used_times e) key x))
  end.

(** The body of [for _, v := range strs]. *)
Definition execConn_line (v : string) : M unit :=
  if GoStrings.Contains v "query time" then
    let fs := GoStrings.Split v " " in
    if (List.length fs =? 4)%nat then
      let connstr := List.nth 2 fs "" in
      let '(ipport, svname) := splitConnStr connstr in
      let ts := List.nth 3 fs "" in
      if GoStrings.HasSuffix ts "ms" then
        let ts := GoStrings.Replace ts "ms" "" 1 in
        match ParseFloat ts with
        | inr _ => used_times_set [ipport; svname] (F64.of_Z 999)
        | inl dr =>
            used_times_set [ipport; svname; "connectsucc"] (F64.div dr (F64.of_Z 1000))
        end
      else
        let ts := GoStrings.Replace ts "s" "" 1 in
        match ParseFloat ts with
        | inr _ => used_times_set [ipport; svname] (F64.of_Z 999)
        | inl dr => used_times_set [ipport; svname; "connectsucc"] dr
        end
    else ret tt
  else ret tt.

Fixpoint execConn_lines (strs : list string) : M unit :=
  match strs with
  | [] => ret tt
  | v :: strs' => execConn_line v;; execConn_lines strs'
  end.

(** [execConn]: [busy] says that [testStepAll] is full, [Executable] is
    the result of [os.Executable()], and [cc] is what the child process
    wrote on its standard error.  No panic is recovered here. *)
Definition execConn (busy : bool) (Executable : string + string) (cc : string)
  : M unit :=
  if busy then ret tt
  else
    match Executable with
    | inr _ => ret tt
    | inl _ => execConn_lines (GoStrings.Split cc newline)
    end.

End ExecConn.


(* ===================================================================== *)
(** ** Vocabulary of the statements *)
(* ===================================================================== *)

(** The values of the custom labels of one row, in declaration order. *)
Definition label_values (cols : list string) (vals : list Value) (labels : list string)
  : list string :=
  List.map (fun label => labelValue (cell vals (columnIndex label cols))) labels.

(** The identity of the series written for [metric] in row [rownum]: the
    label values in the order [addCustomsql] declares the names. *)
Definition series_key (conn : Config) (query : Query) (cols : list string)
           (vals : list Value) (metric : string) (rownum : Z) : list string :=
  (label_values cols vals (Labels query)
   ++ [metric; Database conn; Instance conn; Strconv.Itoa rownum])%list.

(** Every label value of the series identity [key] is valid UTF-8, which
    [With] requires. *)
Definition valid_utf8 (key : list string) : Prop :=
  Forall (fun val => Utf8.ValidString val = true) key.

(** [promLabels] after the label loop has run over [labels]. *)
Definition with_labels (cols : list string) (vals : list Value)
           (promLabels : gmap string string) (labels : list string) : gmap string string :=
  List.fold_left
    (fun m label => <[cleanName label := labelValue (cell vals (columnIndex label cols))]> m)
    labels promLabels.

(** The world after one [Set] on the vector [vec] of a custom query. *)
Definition emitted (w : World) (name : string) (vec : GaugeVec) (key : list string)
           (x : F64.float64) : World :=
  {| exporter := set_custom (exporter w) (<[name := Prom.Set_ vec key x]> (custom (exporter w)));
     logged := logged w |}.

(** A run that wrote no series: it fell through or left [QueryLoop], and
    added at most one warning to the log. *)
Definition quiet (query : Query) (w : World) (r : (unit + Signal) * World) : Prop :=
  r = (inl (), w) \/
  exists label, label ∈ Labels query /\
    r = (inr BreakQueryLoop, add_log w [(WarnLevel, label_not_found query label)]).

(** [fmt.Sprintf("%v", v)] on the cell itself, the conversion the comment
    "catch other type" announces: the second definition the label coercion
    of the source is compared with. *)
Definition Sprintf_v (v : Value) : string :=
  match v with
  | VNil => "<nil>"
  | VString s => s
  | VFloat64 f => Sprintf_v_float64 f
  | VInt64 i => Strconv.Itoa i
  | VBool b => if b then "true" else "false"
  | VBytes b =>
      ("[" ++ String.concat " "
                (List.map (fun c => Strconv.Itoa (Z.of_nat (nat_of_ascii c)))
                          (list_ascii_of_string b)) ++ "]")%string
  | VTime t => t
  end.

(** The text [execConn] hands to [ParseFloat] for the token [ts]. *)
Definition elapsed_text (ts : string) : string :=
  if GoStrings.HasSuffix ts "ms" then GoStrings.Replace ts "ms" "" 1
  else GoStrings.Replace ts "s" "" 1.

(** The gauge vectors [resetAllMetrics] resets, the custom ones apart. *)
Definition all_gauge_vecs (e : Exporter) : list GaugeVec :=
  [used_times e; up e; session e; sysstat e; waitclass e; sysmetric e; interconnect e;
   tablespace e; recovery e; redo e; cache e; uptime e; alertlog e; alertdate e;
   services e; parameter e; asmspace e; tablerows e; tablebytes e; indexbytes e;
   lobbytes e].

(* ===================================================================== *)
(** ** Concrete inputs *)
(* ===================================================================== *)

(** Unicode tables for the examples, which never look at them. *)
Definition ex_unicode : GoStrings.Unicode :=
  {| GoStrings.Map_unicode_ToLower := fun s => s |}.

Definition ex_rows_v : Rows :=
  {| Columns := ["V"]; fetch := [[VFloat64 (F64.of_Z 1)]] |}.

Definition ex_row_a : list Value :=
  [VFloat64 (F64.of_Z 7); VString "x"; VFloat64 (F64.of_scaled 21 (-2))].

Definition ex_rows_a : Rows :=
  {| Columns := ["A"; "L1"; "L 2"]; fetch := [ex_row_a] |}.

Definition ex_database : DB :=
  {| PingContext := None;
     QueryRow_Scan2 := fun _ => inl ("ORCL", "orcl1");
     QueryContext := fun sql =>
       if String.eqb sql "select v from t" then inl ex_rows_v
       else if String.eqb sql "select a, l1, l2 from u" then inl ex_rows_a
       else inr "ORA-00942: table or view does not exist" |}.

Definition ex_query_ok : Query :=
  {| Sql := "select v from t"; Name := "q_ok"; Metrics := ["v"]; Labels := []; Help := "" |}.

Definition ex_query_bad : Query :=
  {| Sql := "select v from missing"; Name := "q_bad"; Metrics := ["v"]; Labels := [];
     Help := "" |}.

Definition ex_query_label : Query :=
  {| Sql := "select v from t"; Name := "q_label"; Metrics := ["v"];
     Labels := ["missing_col"]; Help := "" |}.

Definition ex_query_a : Query :=
  {| Sql := "select a, l1, l2 from u"; Name := "q_a"; Metrics := ["a"; "missing_metric"];
     Labels := ["l1"; "l 2"]; Help := "" |}.

Definition ex_conn (queries : list Query) : Config :=
  {| Connection := "scott/tiger@db1:1521/orcl"; Database := "PROD"; Instance := "prod1";
     Alertlog := []; Queries := queries; db := Some ex_database |}.

Definition ex_world (queries : list Query) : World :=
  {| exporter := NewExporter {| Cfgs := [ex_conn queries] |}; logged := [] |}.

Definition ex_exporter_timed : Exporter :=
  let e := NewExporter {| Cfgs := [ex_conn [ex_query_ok]] |} in
  set_used_times e (Prom.Set_ (used_times e) ["db1:1521"; "orcl"; "connect"] (F64.of_Z 12)).

Definition ex_conf_half : Config :=
  {| Connection := "scott/tiger@db1:1521/orcl"; Database := "PROD"; Instance := "";
     Alertlog := []; Queries := []; db := None |}.

Definition ex_sql_Open (connection : string) : DB + string := inl ex_database.

Definition ex_globals : Globals :=
  {| config := {| Cfgs := [ex_conn [ex_query_ok]] |}; pwd := "/opt/exporter"; timeout := 5;
     closing := []; glog := [] |}.

Definition ex_yaml_Unmarshal (content : string) : Configs + string :=
  if String.eqb content "connections: []" then inl {| Cfgs := [] |}
  else inr "yaml: line 1: did not find expected key".

(** A [ParseFloat] for the examples: [digits] or [digits.digits]; every
    other text is a syntax error. *)
Definition ex_ParseFloat (s : string) : F64.float64 + string :=
  match GoStrings.Split s "." with
  | [i] =>
      match i, Strconv.parse_digits 0 i with
      | String _ _, Some n => inl (F64.of_Z n)
      | _, _ => inr "invalid syntax"
      end
  | [i; f] =>
      match i, f, Strconv.parse_digits 0 (i ++ f) with
      | String _ _, String _ _, Some n =>
          inl (F64.div (F64.of_Z n) (F64.of_Z (10 ^ Z.of_nat (String.length f))))
      | _, _, _ => inr "invalid syntax"
      end
  | _ => inr "invalid syntax"
  end.

(** What a probe run wrote: a ping line, a line whose elapsed time is not a
    number once the unit is removed, and a well-formed line. *)
Definition ex_probe_output : string :=
  ("ping time scott/tiger@db1:1521/orcl 35ms" ++ newline
   ++ "query time scott/tiger@db1:1521/orcl 1m2.5s" ++ newline
   ++ "query time scott/tiger@db2:1521/orcl 41.5ms" ++ newline)%string.

(* ===================================================================== *)
(** ** Vocabulary of the further statements *)
(* ===================================================================== *)

(** The bytes of [s], each replaced by the string [f] gives for it. *)
Fixpoint map_bytes (f : ascii -> string) (s : string) : string :=
  match s with
  | EmptyString => EmptyString
  | String c s' => (f c ++ map_bytes f s')%string
  end.

(** What the four replacements of [cleanName] make of one byte. *)
Definition replaced_byte (c : ascii) : string :=
  if Ascii.eqb c " " then "_"
  else if Ascii.eqb c "(" || Ascii.eqb c ")" || Ascii.eqb c "/" then ""
  else String c "".

(** What [cleanName] makes of one byte of an ASCII name. *)
Definition clean_byte (c : ascii) : string :=
  if Ascii.eqb c " " then "_"
  else if Ascii.eqb c "(" || Ascii.eqb c ")" || Ascii.eqb c "/" then ""
  else String (GoStrings.lower_byte c) "".

(** The byte [c] occurs in [s]. *)
Fixpoint has_byte (c : ascii) (s : string) : bool :=
  match s with
  | EmptyString => false
  | String x s' => Ascii.eqb c x || has_byte c s'
  end.

(** The bytes [cleanName] never leaves in a name: blank, parentheses,
    slash and the ASCII capitals. *)
Definition clean_bytes_only (s : string) : Prop :=
  Forall (fun c => c <> " "%char /\ c <> "("%char /\ c <> ")"%char /\ c <> "/"%char /\
                   GoStrings.lower_byte c = c)
         (list_ascii_of_string s).

(* ===================================================================== *)
(** ** testConn ([testconn.go]) *)
(* ===================================================================== *)

Section TestConn.

(** [sql.Open("oracle", str)], the scan of the three-column identity query
    of [testConn], and the texts [%v] prints for the two readings of
    [time.Since(t0)]. *)
Variable sql_Open : string -> DB + string.
Variable QueryRow_Scan3 : DB -> string -> (string * string * string) + string.
Variable since_ping since_query : string.

(** [testConn]: the entries it logs and what it writes on standard error.
    [log.Infoln] separates its operands with blanks. *)
Definition testConn (str : string) : list LogEntry * string :=
  match sql_Open str with
  | inr err => ([(InfoLevel, Text (" open  " ++ str ++ "   err  " ++ err)%string)], "")
  | inl d =>
      match PingContext d with
      | Some err => ([(InfoLevel, Text (" ping  " ++ str ++ "   err  " ++ err)%string)], "")
      | None =>
          let l := [(InfoLevel, Text (" ping time   " ++ str ++ " " ++ since_ping)%string)] in
          match QueryRow_Scan3 d
                  "select name, instance_name, host_name from v$database, v$instance" with
          | inr err => ((l ++ [(InfoLevel, Text (" select err  " ++ err)%string)])%list, "")
          | inl _ => (l, ("query time " ++ str ++ " " ++ since_query ++ newline)%string)
          end
      end
  end.

End TestConn.

(** [w'] differs from [w] at most in the series of [used_times]: same log,
    same exporter but for that vector, which keeps its declaration (name,
    help text and label names). *)
Definition same_but_used_times (w w' : World) : Prop :=
  logged w' = logged w /\
  exists v, exporter w' = set_used_times (exporter w) v /\
            Prom.Reset v = Prom.Reset (used_times (exporter w)).

Definition ex_QueryRow_Scan3 (d : DB) (sql : string) : (string * string * string) + string :=
  inl ("ORCL", "orcl1", "dbhost1").

(** [w'] differs from [w] at most in series of the custom vectors and in
    further log entries: the same custom vectors are registered, with the
    same names, help texts and label names, and every other field of the
    exporter is as before. *)
Definition same_but_custom (w w' : World) : Prop :=
  (exists entries, logged w' = (logged w ++ entries)%list) /\
  exists c, exporter w' = set_custom (exporter w) c /\
            Prom.Reset <$> c = Prom.Reset <$> custom (exporter w).

(** Every run of [m] is related by [R]. *)
Definition preserves {A} (R : World -> World -> Prop) (m : M A) : Prop :=
  forall w r w', m w = (r, w') -> R w w'.

(** The series one row gives: for each metric name, in order, the float64
    cell of its column, if it has one. *)
Definition row_series (conn : Config) (query : Query) (cols : list string)
           (vals : list Value) (rownum : Z) : list (list string * F64.float64) :=
  List.flat_map
    (fun metric =>
       if columnIndex metric cols =? -1 then []
       else match cell vals (columnIndex metric cols) with
            | VFloat64 x => [(series_key conn query cols vals metric rownum, x)]
            | _ => []
            end)
    (Metrics query).

(** The series of a result set, rows numbered from [rownum]; a row of the
    wrong width ends the result. *)
Fixpoint result_series (conn : Config) (query : Query) (cols : list string)
         (pending : list (list Value)) (rownum : Z) : list (list string * F64.float64) :=
  match pending with
  | [] => []
  | row :: pending' =>
      if Nat.eqb (List.length row) (List.length cols)
      then (row_series conn query cols row rownum
            ++ result_series conn query cols pending' (rownum + 1))%list
      else []
  end.

(** The label values of all the series [l] are valid UTF-8. *)
Definition valid_series (l : list (list string * F64.float64)) : Prop :=
  Forall (fun kv => valid_utf8 kv.1) l.

(** The vector after the writes [l], one [Set] after the other. *)
Definition upsert_all (vec : GaugeVec) (l : list (list string * F64.float64)) : GaugeVec :=
  List.fold_left (fun v kv => Prom.Set_ v kv.1 kv.2) l vec.

(** The world in which the custom vector [name] is [vec]. *)
Definition with_custom_vec (w : World) (name : string) (vec : GaugeVec) : World :=
  {| exporter := set_custom (exporter w) (<[name := vec]> (custom (exporter w)));
     logged := logged w |}.

(** The value the writes [l] leave for the identity [k], if any of them
    has it: the one of the last such write. *)
Fixpoint last_write (k : list string) (l : list (list string * F64.float64))
  : option F64.float64 :=
  match l with
  | [] => None
  | kv :: l' =>
      match last_write k l' with
      | Some x => Some x
      | None => if decide (kv.1 = k) then Some kv.2 else None
      end
  end.

(** A result with a column named like the fixed label "metric", and a
    query that declares that column as a label. *)
Definition ex_rows_clash : Rows :=
  {| Columns := ["V"; "METRIC"]; fetch := [[VFloat64 (F64.of_Z 1); VString "cpu"]] |}.

Definition ex_database_clash : DB :=
  {| PingContext := None;
     QueryRow_Scan2 := fun _ => inl ("ORCL", "orcl1");
     QueryContext := fun sql =>
       if String.eqb sql "select v, metric from s" then inl ex_rows_clash
       else inl ex_rows_v |}.

Definition ex_query_clash : Query :=
  {| Sql := "select v, metric from s"; Name := "q_clash"; Metrics := ["v"];
     Labels := ["metric"]; Help := "" |}.

Definition ex_conn_clash : Config :=
  {| Connection := "scott/tiger@db1:1521/orcl"; Database := "PROD"; Instance := "prod1";
     Alertlog := []; Queries := [ex_query_clash; ex_query_ok];
     db := Some ex_database_clash |}.

Definition ex_world_clash : World :=
  {| exporter := NewExporter {| Cfgs := [ex_conn_clash] |}; logged := [] |}.

(** A run that wrote nothing: it fell through, or it panicked in [With]
    on the vector [vec]. *)
Definition silent (vec : GaugeVec) (w : World) (r : (unit + Signal) * World) : Prop :=
  r = (inl (), w) \/ r = (inr (Panic (InconsistentLabels (Prom.fqName vec))), w).

(** All queries of a configuration, target after target. *)
Definition all_queries (config : Configs) : list Query :=
  List.concat (List.map Queries (Cfgs config)).

(** The last query named [name] in [qs]. *)
Fixpoint last_query (name : string) (qs : list Query) : option Query :=
  match qs with
  | [] => None
  | q :: qs' =>
      match last_query name qs' with
      | Some q' => Some q'
      | None => if String.eqb (Name q) name then Some q else None
      end
  end.

(** The vector [addCustomsql] declares for a query. *)
Definition declared_vec (query : Query) : GaugeVec :=
  Prom.NewVec namespace "" ("custom_" ++ cleanName (Name query))%string
              (Help query) (custom_labels query).


(** What [Connect] must not change in a target: the connection descriptor,
    the alert log files and the custom queries. *)
Definition same_target (conf conf' : Config) : Prop :=
  Connection conf' = Connection conf /\
  Alertlog conf' = Alertlog conf /\
  Queries conf' = Queries conf.

(** The world in which the series [key] of [up] is [x]. *)
Definition with_up (w : World) (key : list string) (x : F64.float64) : World :=
  {| exporter := set_up (exporter w) (Prom.Set_ (up (exporter w)) key x);
     logged := logged w |}.

Definition ex_database_down : DB :=
  {| PingContext := Some "ORA-12541: TNS:no listener";
     QueryRow_Scan2 := fun _ => inr "sql: no rows in result set";
     QueryContext := fun _ => inr "closed" |}.

Definition ex_database_noident : DB :=
  {| PingContext := None;
     QueryRow_Scan2 := fun _ => inr "ORA-00942: table or view does not exist";
     QueryContext := fun _ => inr "closed" |}.

Definition ex_conf_dummy : Config :=
  {| Connection := ""; Database := "PLANNED"; Instance := "planned1";
     Alertlog := []; Queries := [ex_query_ok]; db := None |}.

(** The globals after the requests [/setTimeout?v=ts], one after the other. *)
Definition setTimeout_all (requests : list string) (g : Globals) : Globals :=
  List.fold_left (fun g ts => (setTimeout ts g).2) requests g.


End Embedding.

(* ===================================================================== *)
(** * Properties *)
(* ===================================================================== *)

Section Properties.

Context {unicode_tables : GoStrings.Unicode}.

(** ** Sequencing *)

Lemma bind_inl {A B} (m : M A) (k : A -> M B) w a w' :
  m w = (inl a, w') -> (m ≫= k) w = k a w'.
Proof. intros H. unfold mbind, M_bind, bind. by rewrite H. Qed.

Lemma bind_inr {A B} (m : M A) (k : A -> M B) w s w' :
  m w = (inr s, w') -> (m ≫= k) w = (inr s, w').
Proof. intros H. unfold mbind, M_bind, bind. by rewrite H. Qed.

(** ** The metric loop *)

Section MetricLoopFacts.

Variables (conn : Config) (query : Query) (cols : list string).
Variables (vals : list Value) (rownum : Z).

Lemma metric_step_missing_column metric w :
  columnIndex metric cols = -1 ->
  metric_step conn query cols vals rownum metric w = (inl (), w).
Proof. intros H. unfold metric_step. by rewrite H. Qed.

Lemma metric_step_not_float metric w :
  (forall f, cell vals (columnIndex metric cols) <> VFloat64 f) ->
  metric_step conn query cols vals rownum metric w = (inl (), w).
Proof.
  intros H. unfold metric_step.
  destruct (columnIndex metric cols =? -1); [done|].
  destruct (cell vals (columnIndex metric cols)) eqn:E; try done.
  by destruct (H f).
Qed.

Lemma MetricLoop_cons metric metrics w :
  MetricLoop conn query cols vals rownum (metric :: metrics) w =
  match metric_step conn query cols vals rownum metric w with
  | (inl _, w') => MetricLoop conn query cols vals rownum metrics w'
  | (inr s, w') => (inr s, w')
  end.
Proof. reflexivity. Qed.


End MetricLoopFacts.

(** ** A label without a column *)

Section MissingLabel.

Variables (conn : Config) (query : Query) (cols : list string).

Lemma label_loop_missing vals labels promLabels w :
  (exists label, label ∈ labels /\ columnIndex label cols = -1) ->
  exists label, label ∈ labels /\
    label_loop query cols vals labels promLabels w =
    (inr BreakQueryLoop, add_log w [(WarnLevel, label_not_found query label)]).
Proof.
  revert promLabels. induction labels as [|l labels IH]; intros promLabels [l0 [Hin Hidx]].
  - by apply elem_of_nil in Hin.
  - simpl. destruct (columnIndex l cols =? -1) eqn:E.
    + exists l. split; [left|reflexivity].
    + apply elem_of_cons in Hin as [->|Hin].
      * rewrite Hidx in E. discriminate.
      * destruct (IH (<[cleanName l:=labelValue (cell vals (columnIndex l cols))]> promLabels))
          as [l1 [Hl1 Heq]]; [by exists l0|].
        exists l1. split; [by right|exact Heq].
Qed.

Hypothesis missing : exists label, label ∈ Labels query /\ columnIndex label cols = -1.

Lemma metric_step_quiet vals rownum metric w :
  quiet query w (metric_step conn query cols vals rownum metric w).
Proof.
  unfold metric_step.
  destruct (columnIndex metric cols =? -1); [by left|].
  destruct (cell vals (columnIndex metric cols)); try by left.
  destruct (label_loop_missing vals (Labels query) (fixed_labels conn metric rownum) w missing)
    as [l [Hl Heq]].
  right. exists l. split; [done|].
  by erewrite bind_inr.
Qed.

Lemma MetricLoop_quiet vals rownum metrics w :
  quiet query w (MetricLoop conn query cols vals rownum metrics w).
Proof.
  revert w. induction metrics as [|m ms IH]; intros w; [by left|].
  rewrite MetricLoop_cons.
  destruct (metric_step_quiet vals rownum m w) as [->|[l [Hl ->]]].
  - apply IH.
  - right. by exists l.
Qed.

Lemma row_loop_quiet pending rownum w :
  quiet query w (row_loop conn query cols pending rownum w).
Proof.
  revert rownum w. induction pending as [|row pending IH]; intros rownum w; [by left|].
  simpl. destruct (Scan cols row) as [vals|]; [|by left].
  destruct (MetricLoop_quiet vals rownum (Metrics query) w) as [H|[l [Hl H]]].
  - erewrite bind_inl by exact H. apply IH.
  - erewrite bind_inr by exact H. right. by exists l.
Qed.

End MissingLabel.

(** ** All labels have a column *)

Section PresentLabels.

Variables (query : Query) (cols : list string) (vals : list Value).

Lemma label_loop_present labels promLabels w :
  Forall (fun label => columnIndex label cols <> -1) labels ->
  label_loop query cols vals labels promLabels w =
  (inl (with_labels cols vals promLabels labels), w).
Proof.
  revert promLabels. induction labels as [|l ls IH]; intros pl H; [done|].
  apply Forall_cons in H as [Hl Hls]. simpl.
  apply Z.eqb_neq in Hl. rewrite Hl. by apply IH.
Qed.

Lemma with_labels_cons l labels promLabels :
  with_labels cols vals promLabels (l :: labels) =
  with_labels cols vals
    (<[cleanName l := labelValue (cell vals (columnIndex l cols))]> promLabels) labels.
Proof. reflexivity. Qed.

Lemma with_labels_lookup_other labels promLabels k :
  k ∉ cleanName <$> labels ->
  with_labels cols vals promLabels labels !! k = promLabels !! k.
Proof.
  revert promLabels. induction labels as [|l ls IH]; intros pl H; [done|].
  rewrite fmap_cons in H. apply not_elem_of_cons in H as [Hne H].
  rewrite with_labels_cons, IH by done.
  by rewrite lookup_insert_ne.
Qed.

Lemma with_labels_lookup labels promLabels :
  NoDup (cleanName <$> labels) ->
  Forall2 (fun k v => with_labels cols vals promLabels labels !! k = Some v)
          (cleanName <$> labels) (label_values cols vals labels).
Proof.
  revert promLabels. induction labels as [|l ls IH]; intros pl H; [constructor|].
  rewrite fmap_cons in H. apply NoDup_cons in H as [Hl H].
  rewrite with_labels_cons. simpl. constructor.
  - rewrite with_labels_lookup_other by done. apply lookup_insert_eq.
  - by apply IH.
Qed.

Lemma with_labels_size labels promLabels :
  NoDup (cleanName <$> labels) ->
  Forall (fun k => promLabels !! k = None) (cleanName <$> labels) ->
  size (with_labels cols vals promLabels labels) = (size promLabels + length labels)%nat.
Proof.
  revert promLabels. induction labels as [|l ls IH]; intros pl H Hfresh; [simpl; lia|].
  rewrite fmap_cons in H, Hfresh. apply NoDup_cons in H as [Hl H].
  apply Forall_cons in Hfresh as [Hfl Hfresh].
  rewrite with_labels_cons, IH.
  - rewrite map_size_insert_None by done. simpl. lia.
  - done.
  - apply Forall_forall. intros k Hk.
    rewrite lookup_insert_ne; [|intros Heq; by subst k].
    by eapply Forall_forall in Hfresh.
Qed.

End PresentLabels.

Lemma fixed_labels_size conn metric rownum : size (fixed_labels conn metric rownum) = 4%nat.
Proof.
  unfold fixed_labels.
  rewrite !map_size_insert_None, map_size_empty; [done|by simplify_map_eq..].
Qed.

Lemma fixed_labels_fresh conn metric rownum k :
  k ∉ ["metric"; "database"; "dbinstance"; "rownum"] ->
  fixed_labels conn metric rownum !! k = None.
Proof.
  intros H. unfold fixed_labels.
  rewrite !lookup_insert_ne, lookup_empty; [done|intros <-; apply H; set_solver..].
Qed.

Lemma with_labels_valid cols vals labels promLabels :
  map_Forall (fun _ val => Utf8.ValidString val = true) promLabels ->
  valid_utf8 (label_values cols vals labels) ->
  map_Forall (fun _ val => Utf8.ValidString val = true)
             (with_labels cols vals promLabels labels).
Proof.
  revert promLabels. induction labels as [|l ls IH]; intros pl Hpl Hv; [done|].
  apply Forall_cons in Hv as [Hl Hls].
  rewrite with_labels_cons. apply IH; [|done].
  by apply map_Forall_insert_2.
Qed.

Lemma fixed_labels_valid conn metric rownum :
  valid_utf8 [metric; Database conn; Instance conn; Strconv.Itoa rownum] ->
  map_Forall (fun _ val => Utf8.ValidString val = true) (fixed_labels conn metric rownum).
Proof.
  intros H. unfold valid_utf8 in H. rewrite !Forall_cons in H.
  destruct H as (Hm & Hd & Hi & Hr & _). unfold fixed_labels.
  repeat apply map_Forall_insert_2; try done.
Qed.

(** [With] accepts the labels of a vector declared by [addCustomsql] whose
    names are pairwise distinct, when the label values are valid UTF-8, and
    yields the series identity. *)
Lemma With_custom_labels conn query cols vals metric rownum vec :
  Prom.variableLabels vec = custom_labels query ->
  NoDup (custom_labels query) ->
  valid_utf8 (series_key conn query cols vals metric rownum) ->
  Prom.With vec (with_labels cols vals (fixed_labels conn metric rownum) (Labels query)) =
  Some (series_key conn query cols vals metric rownum).
Proof.
  intros Hvec Hnd Hval. unfold Prom.With. rewrite Hvec. unfold custom_labels in *.
  change (List.map cleanName (Labels query)) with (cleanName <$> Labels query) in *.
  apply NoDup_app in Hnd as (Hnd & Hdisj & _).
  assert (Hsz : size (with_labels cols vals (fixed_labels conn metric rownum) (Labels query))
               = length ((cleanName <$> Labels query)
                         ++ ["metric"; "database"; "dbinstance"; "rownum"])).
  { rewrite with_labels_size, fixed_labels_size; [| done |].
    - rewrite length_app, length_fmap. simpl. lia.
    - apply Forall_forall. intros k Hk. apply fixed_labels_fresh. by apply Hdisj. }
  rewrite Hsz, Nat.eqb_refl.
  unfold valid_utf8, series_key in Hval. apply Forall_app in Hval as [Hvl Hvf].
  rewrite bool_decide_eq_true_2
    by (apply with_labels_valid; [by apply fixed_labels_valid|done]).
  apply mapM_Some_2. unfold series_key. apply Forall2_app.
  - by apply with_labels_lookup.
  - assert (Hfix : forall k, k ∈ ["metric"; "database"; "dbinstance"; "rownum"] ->
               k ∉ cleanName <$> Labels query).
    { intros k Hk Hin. by apply (Hdisj k). }
    repeat constructor; rewrite with_labels_lookup_other by (apply Hfix; set_solver);
      unfold fixed_labels; by simplify_map_eq.
Qed.

Lemma metric_step_float conn query cols vals rownum metric x vec w :
  columnIndex metric cols <> -1 ->
  cell vals (columnIndex metric cols) = VFloat64 x ->
  Forall (fun label => columnIndex label cols <> -1) (Labels query) ->
  custom (exporter w) !! Name query = Some vec ->
  Prom.variableLabels vec = custom_labels query ->
  NoDup (custom_labels query) ->
  valid_utf8 (series_key conn query cols vals metric rownum) ->
  metric_step conn query cols vals rownum metric w =
  (inl (), emitted w (Name query) vec (series_key conn query cols vals metric rownum) x).
Proof.
  intros Hidx Hcell Hlabels Hvec Hdecl Hnd Hval. unfold metric_step.
  apply Z.eqb_neq in Hidx. rewrite Hidx, Hcell.
  erewrite bind_inl by (by apply label_loop_present).
  unfold custom_set. erewrite bind_inl by reflexivity.
  rewrite Hvec. by erewrite With_custom_labels.
Qed.

(* ===================================================================== *)
(** ** The custom query engine *)
(* ===================================================================== *)

(** C1.  When the SQL of a custom query fails, that query writes no series,
    and [ScrapeCustomQueries] returns on the spot: the loop over the
    target's queries ends with [ReturnFromFunction] and the world is
    the one before the query, whatever queries follow.  The queries after
    the failing one are therefore never executed. *)
Theorem query_error_aborts_sibling_specs
        (conn : Config) (database : DB) (query : Query) (queries : list Query)
        (err : string) (w : World) :
  QueryContext database (Sql query) = inr err ->
  queries_loop conn database (query :: queries) w = (inr ReturnFromFunction, w) /\
  (db conn = Some database -> Queries conn = query :: queries ->
   ScrapeCustomQueries conn w = w).
Proof.
  intros Herr.
  assert (H : queries_loop conn database (query :: queries) w = (inr ReturnFromFunction, w)).
  { simpl. by rewrite Herr. }
  split; [exact H|].
  intros Hdb Hqs. unfold ScrapeCustomQueries. by rewrite Hdb, Hqs, H.
Qed.

(** C2.  A custom query that declares a label with no matching result
    column (columns are matched through [cleanName]) writes no series,
    whatever rows its result holds: the exporter after the query is the
    exporter before it, the log gains at most the warning, and the loop
    goes on with the remaining queries of the target. *)
Theorem label_mismatch_emits_nothing
        (conn : Config) (database : DB) (query : Query) (queries : list Query)
        (rows : Rows) (w : World) :
  QueryContext database (Sql query) = inl rows ->
  (exists label, label ∈ Labels query /\ columnIndex label (Columns rows) = -1) ->
  exists w',
    exporter w' = exporter w /\
    (w' = w \/ exists label, label ∈ Labels query /\
                 w' = add_log w [(WarnLevel, label_not_found query label)]) /\
    queries_loop conn database (query :: queries) w = queries_loop conn database queries w'.
Proof.
  intros Hq Hmiss. simpl. rewrite Hq.
  unfold mbind, M_bind, bind, QueryLoop_end.
  destruct (row_loop_quiet conn query (Columns rows) Hmiss (fetch rows) 1 w)
    as [->|[l [Hl ->]]].
  - exists w. by eauto.
  - exists (add_log w [(WarnLevel, label_not_found query l)]). split; [done|]. split; [|done].
    right. by exists l.
Qed.

(** The target of the witness above ends with the series of the healthy
    query and none of the mismatching one. *)
Lemma label_mismatch_example :
  Prom.metrics <$> custom (exporter (ScrapeCustomQueries
                                       (ex_conn [ex_query_label; ex_query_ok])
                                       (ex_world [ex_query_label; ex_query_ok])))
  = {[ "q_label" := ∅; "q_ok" := {[ ["v"; "PROD"; "prod1"; "1"] := F64.of_Z 1 ]} ]}.
Proof. vm_compute. reflexivity. Qed.


(** C10.  For a metric whose column exists, a cell that is not a float64
    (a string, an integer, nil, ...) writes no series for that row and
    metric and reports nothing: the world is unchanged, log included, and
    the loop goes on with the next metric. *)
Theorem non_float_metric_cell_emits_nothing
        (conn : Config) (query : Query) (cols : list string) (vals : list Value)
        (rownum : Z) (metric : string) (metrics : list string) (w : World) :
  columnIndex metric cols <> -1 ->
  (forall f, cell vals (columnIndex metric cols) <> VFloat64 f) ->
  metric_step conn query cols vals rownum metric w = (inl (), w) /\
  MetricLoop conn query cols vals rownum (metric :: metrics) w =
  MetricLoop conn query cols vals rownum metrics w.
Proof.
  intros _ H.
  pose proof (metric_step_not_float conn query cols vals rownum metric w H) as E.
  split; [exact E|]. by rewrite MetricLoop_cons, E.
Qed.

(** ** Label values *)

Lemma labelValue_string (a : string) : labelValue (VString a) = a.
Proof. reflexivity. Qed.

(** 5.0 renders as "5". *)
Lemma labelValue_integral_example : labelValue (VFloat64 (F64.of_Z 5)) = "5".
Proof. vm_compute. reflexivity. Qed.

(** 5.25 renders as "5.25e+00". *)
Lemma labelValue_fraction_example :
  labelValue (VFloat64 (F64.of_scaled 21 (-2))) = "5.25e+00".
Proof. vm_compute. reflexivity. Qed.

(** A float64 whose integer part does not fit an int64 takes the
    scientific branch although it is integral. *)
Lemma labelValue_large_integral_example :
  labelValue (VFloat64 (F64.of_scaled 1 63)) = "9.223372036854776e+18".
Proof. vm_compute. reflexivity. Qed.

(** C4.  The label value of a cell that is neither a string nor a float64
    does not depend on the cell: the source formats the zero float64 left
    by the failed type assertion, so nil, every integer, boolean, byte
    slice and time renders as "0"; for the integer 42 this differs from the
    conversion of the cell's own value, "42". *)
Theorem labelValue_fallback_ignores_cell :
  labelValue VNil = "0" /\
  (forall i, labelValue (VInt64 i) = "0") /\
  (forall b, labelValue (VBool b) = "0") /\
  (forall b, labelValue (VBytes b) = "0") /\
  (forall t, labelValue (VTime t) = "0") /\
  Sprintf_v (VInt64 42) = "42" /\
  labelValue (VInt64 42) <> Sprintf_v (VInt64 42).
Proof.
  assert (E : Sprintf_v_float64 zero = "0") by (vm_compute; reflexivity).
  repeat split; intros; try exact E.
  vm_compute. discriminate.
Qed.

(* ===================================================================== *)
(** ** The metric reset *)
(* ===================================================================== *)

(** C5, amended.  [resetAllMetrics], which [Connect] runs before anything
    else, empties every gauge vector of the exporter, the per-phase timing
    vector [used_times] and every custom vector included, and leaves the
    total scrape count, the last-scrape error flag, the last-scrape
    duration and the scrape error counters as they were. *)
Theorem resetAllMetrics_frame (e : Exporter) :
  totalScrapes (resetAllMetrics e) = totalScrapes e /\
  error (resetAllMetrics e) = error e /\
  duration (resetAllMetrics e) = duration e /\
  scrapeErrors (resetAllMetrics e) = scrapeErrors e /\
  Forall (fun v => Prom.metrics v = ∅) (all_gauge_vecs (resetAllMetrics e)) /\
  (forall name, custom (resetAllMetrics e) !! name = Prom.Reset <$> custom e !! name) /\
  (forall name vec, custom (resetAllMetrics e) !! name = Some vec -> Prom.metrics vec = ∅) /\
  (forall sql_Open config w,
      Connect sql_Open config w =
      connect_targets sql_Open (Cfgs config)
        {| exporter := resetAllMetrics (exporter w); logged := logged w |}).
Proof.
  repeat split.
  - repeat constructor.
  - intros name. simpl. apply lookup_fmap.
  - intros name vec. simpl. rewrite lookup_fmap.
    destruct (custom e !! name); simpl; [|done]. by intros [= <-].
Qed.

(* ===================================================================== *)
(** ** The configuration loader *)
(* ===================================================================== *)

(** C6.  When the configuration file cannot be read or does not parse,
    [loadConfig] ends the process with status 1 through [log.Fatalf]: it
    does not return, with [false] or otherwise.  The configuration is
    untouched at that point. *)
Theorem loadConfig_failure_exits
        (path : string) (ReadFile : string + string)
        (yaml_Unmarshal : string -> Configs + string) (g : Globals) :
  ((exists err, ReadFile = inr err) \/
   (exists content err, ReadFile = inl content /\ yaml_Unmarshal content = inr err)) ->
  exists g',
    loadConfig (inl path) ReadFile yaml_Unmarshal g = Exits 1 g' /\
    config g' = config g /\
    (forall reload g'', loadConfig (inl path) ReadFile yaml_Unmarshal g <> Returns reload g'').
Proof.
  intros [[err ->]|(content & err & -> & Hparse)]; unfold loadConfig; [|rewrite Hparse];
    (eexists; split; [reflexivity|split; [reflexivity|discriminate]]).
Qed.

(** The reload route never answers " loadConfig: false": a failed load has
    ended the process before. *)
Lemma reloadConfig_never_reports_failure
      (path : string) (ReadFile : string + string)
      (yaml_Unmarshal : string -> Configs + string) (e e' : Exporter) (g g' : Globals) :
  reloadConfig (inl path) ReadFile yaml_Unmarshal e g
  <> Returns (ReloadText " loadConfig: false", e') g'.
Proof.
  unfold reloadConfig, loadConfig.
  destruct ReadFile as [content|err]; [|discriminate].
  destruct (yaml_Unmarshal content); discriminate.
Qed.

(* ===================================================================== *)
(** ** The timeout routes *)
(* ===================================================================== *)

(** C7.  [/getTimeout] answers with the stored timeout.  For a parameter
    that parses as the integer [t], [/setTimeout] rejects [t <= 1] and
    [t >= 15] and leaves the globals, the timeout among them, as they
    were; for [1 < t < 15] it stores [t], which the next [/getTimeout]
    reports. *)
Theorem setTimeout_open_interval (ts : string) (t : Z) (g : Globals) :
  Strconv.Atoi ts = inl t ->
  getTimeout g = ("current timeout=" ++ Strconv.Itoa (timeout g))%string /\
  (t <= 1 \/ 15 <= t ->
   setTimeout ts g = (TimeoutText "bad timeout, 1<v<15", g)) /\
  (1 < t < 15 ->
   timeout (setTimeout ts g).2 = t /\
   (setTimeout ts g).1 = TimeoutText ("ok, timeout=" ++ Strconv.Itoa t)%string /\
   getTimeout (setTimeout ts g).2 = ("current timeout=" ++ Strconv.Itoa t)%string /\
   config (setTimeout ts g).2 = config g).
Proof.
  intros Hparse. split; [reflexivity|]. unfold setTimeout. rewrite Hparse. split.
  - intros Hout.
    assert (E : (t >=? 15) || (t <=? 1) = true).
    { apply orb_true_iff. destruct Hout; [right|left]; lia. }
    by rewrite E.
  - intros Hin.
    assert (E : (t >=? 15) || (t <=? 1) = false).
    { apply orb_false_iff. split; lia. }
    by rewrite E.
Qed.

(** The borders 1 and 15 are rejected, 2 and 14 accepted; a parameter that
    is not an integer changes nothing either. *)
Lemma setTimeout_borders :
  setTimeout "15" ex_globals = (TimeoutText "bad timeout, 1<v<15", ex_globals) /\
  setTimeout "1" ex_globals = (TimeoutText "bad timeout, 1<v<15", ex_globals) /\
  setTimeout "-3" ex_globals = (TimeoutText "bad timeout, 1<v<15", ex_globals) /\
  timeout (setTimeout "14" ex_globals).2 = 14 /\
  timeout (setTimeout "2" ex_globals).2 = 2 /\
  setTimeout "ten" ex_globals = (AtoiErr Strconv.ErrSyntax, ex_globals).
Proof. repeat split. Qed.

(* ===================================================================== *)
(** ** The connectivity probe *)
(* ===================================================================== *)

(** A line without the marker is ignored. *)
Lemma execConn_line_no_marker ParseFloat v w :
  GoStrings.Contains v "query time" = false ->
  execConn_line ParseFloat v w = (inl (), w).
Proof. intros H. unfold execConn_line. by rewrite H. Qed.

(** A well-formed line records the elapsed seconds. *)
Lemma execConn_line_example :
  Prom.metrics (used_times (exporter
    (execConn_line ex_ParseFloat "query time scott/tiger@db2:1521/orcl 41.5ms"
                   (ex_world [])).2))
  = {[ ["db2:1521"; "orcl"; "connectsucc"] := F64.div (F64.of_scaled 83 (-1)) (F64.of_Z 1000) ]}.
Proof. vm_compute. reflexivity. Qed.

(** C8.  On a line that carries the marker and has four fields, an elapsed
    time that [ParseFloat] rejects makes [execConn] panic: the source asks
    [used_times], a vector of three labels, for a series with two label
    values.  No value 999 is recorded and the lines after it are not
    parsed; the world is the one before the line. *)
Theorem malformed_elapsed_time_panics
        (ParseFloat : string -> F64.float64 + string) (v : string) (strs : list string)
        (err : string) (w : World) :
  GoStrings.Contains v "query time" = true ->
  length (GoStrings.Split v " ") = 4%nat ->
  ParseFloat (elapsed_text (List.nth 3 (GoStrings.Split v " ") "")) = inr err ->
  length (Prom.variableLabels (used_times (exporter w))) = 3%nat ->
  execConn_lines ParseFloat (v :: strs) w =
  (inr (Panic (InconsistentLabels (Prom.fqName (used_times (exporter w))))), w).
Proof.
  intros Hmark Hlen Hparse Hvec. simpl.
  apply bind_inr. unfold execConn_line. rewrite Hmark, Hlen. simpl.
  destruct (splitConnStr (List.nth 2 (GoStrings.Split v " ") "")) as [ipport svname].
  unfold elapsed_text in Hparse.
  assert (Hset : used_times_set [ipport; svname] (F64.of_Z 999) w =
                 (inr (Panic (InconsistentLabels (Prom.fqName (used_times (exporter w))))), w)).
  { unfold used_times_set. erewrite bind_inl by reflexivity.
    unfold Prom.WithLabelValues. by rewrite Hvec. }
  destruct (GoStrings.HasSuffix (List.nth 3 (GoStrings.Split v " ") "") "ms");
    by rewrite Hparse.
Qed.

(* ===================================================================== *)
(** ** Connect *)
(* ===================================================================== *)

Lemma len_zero (s : string) : (GoStrings.len s =? 0) = true <-> s = "".
Proof. destruct s; unfold GoStrings.len; simpl; split; intros H; done. Qed.

(** C9, amended.  For a target that connects, answers the ping and the
    identity query, the two display fields are replaced together: when the
    configured database name or the configured instance name is empty, both
    take the discovered values; when both are configured, both are kept. *)
Theorem connect_replaces_identity_as_a_pair
        (sql_Open : string -> DB + string) (conf : Config) (d : DB)
        (dbname inname : string) (w : World) :
  Connection conf <> "" ->
  sql_Open (Connection conf) = inl d ->
  PingContext d = None ->
  QueryRow_Scan2 d "select db_unique_name,instance_name from v$database,v$instance"
    = inl (dbname, inname) ->
  length (Prom.variableLabels (up (exporter w))) = 2%nat ->
  exists conf' w',
    connect_target sql_Open conf w = (inl conf', w') /\
    db conf' = Some d /\
    (Database conf = "" \/ Instance conf = "" ->
     Database conf' = dbname /\ Instance conf' = inname) /\
    (Database conf <> "" -> Instance conf <> "" ->
     Database conf' = Database conf /\ Instance conf' = Instance conf).
Proof.
  intros Hc Hopen Hping Hid Hup. unfold connect_target. simpl.
  assert (E : (0 <? GoStrings.len (Connection conf)) = true).
  { destruct (Connection conf); [done|]. reflexivity. }
  rewrite E, Hopen, Hping, Hid.
  assert (Hset : forall c x, exists w', up_set c x w = (inl (), w')).
  { intros c x. unfold up_set. erewrite bind_inl by reflexivity.
    unfold Prom.WithLabelValues. simpl. rewrite Hup. simpl. by eexists. }
  destruct ((GoStrings.len (Database conf) =? 0) || (GoStrings.len (Instance conf) =? 0)) eqn:Hor.
  - destruct (Hset (set_identity (set_db (set_db conf None) (Some d)) dbname inname)
                   (F64.of_Z 1)) as [w' Hw'].
    eexists _, w'. split; [by erewrite bind_inl by exact Hw'|].
    split; [done|]. split; [done|].
    intros HD HI. apply orb_true_iff in Hor as [H|H]; apply len_zero in H; congruence.
  - destruct (Hset (set_db (set_db conf None) (Some d)) (F64.of_Z 1)) as [w' Hw'].
    eexists _, w'. split; [by erewrite bind_inl by exact Hw'|].
    split; [done|]. split; [|done].
    apply orb_false_iff in Hor as [HD HI].
    intros [H|H]; apply len_zero in H; congruence.
Qed.

(* ===================================================================== *)
(** * Further properties *)
(* ===================================================================== *)

(** ** Byte strings *)

Lemma ascii_eqb_sym (a b : ascii) : Ascii.eqb a b = Ascii.eqb b a.
Proof.
  destruct (Ascii.eqb_spec a b) as [->|Hne].
  - symmetry. apply Ascii.eqb_refl.
  - symmetry. apply Ascii.eqb_neq. congruence.
Qed.

Lemma string_app_cons (c : ascii) (s t : string) :
  (String c s ++ t)%string = String c (s ++ t).
Proof. reflexivity. Qed.

Lemma string_app_nil_r (s : string) : (s ++ "")%string = s.
Proof. induction s as [|c s IH]; [done|]. by rewrite string_app_cons, IH. Qed.

Lemma string_app_assoc (a b c : string) : ((a ++ b) ++ c)%string = (a ++ (b ++ c))%string.
Proof. induction a as [|x a IH]; [done|]. by rewrite !string_app_cons, IH. Qed.

Lemma map_bytes_app f a b :
  map_bytes f (a ++ b) = (map_bytes f a ++ map_bytes f b)%string.
Proof.
  induction a as [|c a IH]; [done|].
  rewrite string_app_cons. simpl. by rewrite IH, string_app_assoc.
Qed.

Lemma map_bytes_compose f g s :
  map_bytes g (map_bytes f s) = map_bytes (fun c => map_bytes g (f c)) s.
Proof.
  induction s as [|c s IH]; simpl; [done|].
  by rewrite map_bytes_app, IH.
Qed.

Lemma map_bytes_ext f g s : (forall c, f c = g c) -> map_bytes f s = map_bytes g s.
Proof. intros H. induction s as [|c s IH]; simpl; [done|]. by rewrite H, IH. Qed.

Lemma HasPrefix_nil (s : string) : GoStrings.HasPrefix s "" = true.
Proof. by destruct s. Qed.

(** Replacing every occurrence of a one-byte [old] works byte by byte. *)
Lemma Replace_byte_all (c : ascii) (new s : string) :
  GoStrings.Replace s (String c "") new (-1) =
  map_bytes (fun x => if Ascii.eqb c x then new else String x "") s.
Proof.
  unfold GoStrings.Replace. induction s as [|x s IH]; [done|].
  cbn [GoStrings.Replace_from map_bytes GoStrings.HasPrefix].
  change (negb (-1 =? 0)) with true. change (-1 <? 0) with true.
  change (negb (String.eqb (String c "") "")) with true.
  cbn [andb String.length Nat.sub].
  rewrite HasPrefix_nil, andb_true_r, IH.
  by destruct (Ascii.eqb c x).
Qed.

Lemma isASCII_app (a b : string) :
  GoStrings.isASCII (a ++ b) = GoStrings.isASCII a && GoStrings.isASCII b.
Proof.
  induction a as [|c a IH]; [done|].
  rewrite string_app_cons. simpl. by rewrite IH, andb_assoc.
Qed.

Lemma isASCII_map_bytes f s :
  (forall c, implb (Nat.ltb (nat_of_ascii c) 128) (GoStrings.isASCII (f c)) = true) ->
  GoStrings.isASCII s = true -> GoStrings.isASCII (map_bytes f s) = true.
Proof.
  intros Hf. induction s as [|c s IH]; [done|].
  simpl. intros H. apply andb_prop in H as [Hc Hs].
  rewrite isASCII_app, IH by done.
  specialize (Hf c). rewrite Hc in Hf. simpl in Hf. by rewrite Hf.
Qed.

Lemma lower_bytes_bytes (s : string) :
  GoStrings.lower_bytes s = map_bytes (fun c => String (GoStrings.lower_byte c) "") s.
Proof. induction s as [|c s IH]; simpl; [done|by rewrite IH]. Qed.

Lemma isASCII_lower_bytes (s : string) :
  GoStrings.isASCII s = true -> GoStrings.isASCII (GoStrings.lower_bytes s) = true.
Proof.
  rewrite lower_bytes_bytes. apply isASCII_map_bytes. intros c.
  destruct c as [[] [] [] [] [] [] [] []]; reflexivity.
Qed.

(** On an ASCII string [strings.ToLower] works byte by byte, whatever the
    Unicode tables. *)
Lemma ToLower_ascii (s : string) :
  GoStrings.isASCII s = true -> GoStrings.ToLower s = GoStrings.lower_bytes s.
Proof. intros H. unfold GoStrings.ToLower. by rewrite H. Qed.

(** The four replacements of [cleanName], byte by byte. *)
Lemma cleanName_Replace (s : string) :
  cleanName s = GoStrings.ToLower (map_bytes replaced_byte s).
Proof.
  unfold cleanName. f_equal.
  rewrite !Replace_byte_all, !map_bytes_compose.
  apply map_bytes_ext. intros c.
  destruct c as [[] [] [] [] [] [] [] []]; reflexivity.
Qed.

(** On an ASCII name [cleanName] works byte by byte. *)
Lemma cleanName_bytes (s : string) :
  GoStrings.isASCII s = true -> cleanName s = map_bytes clean_byte s.
Proof.
  intros H. rewrite cleanName_Replace, ToLower_ascii, lower_bytes_bytes, map_bytes_compose.
  - apply map_bytes_ext. intros c.
    destruct c as [[] [] [] [] [] [] [] []]; reflexivity.
  - apply isASCII_map_bytes; [|done]. intros c.
    destruct c as [[] [] [] [] [] [] [] []]; reflexivity.
Qed.

Lemma isASCII_cleanName (s : string) :
  GoStrings.isASCII s = true -> GoStrings.isASCII (cleanName s) = true.
Proof.
  intros H. rewrite cleanName_bytes by done.
  apply isASCII_map_bytes; [|done]. intros c.
  destruct c as [[] [] [] [] [] [] [] []]; reflexivity.
Qed.

(** ** cleanName *)

(** X1.  On ASCII names [cleanName] is idempotent: a cleaned name is its
    own cleaned form, so names stored cleaned (label names, vector names)
    match themselves. *)
Theorem cleanName_idempotent (s : string) :
  GoStrings.isASCII s = true -> cleanName (cleanName s) = cleanName s.
Proof.
  intros H. rewrite (cleanName_bytes (cleanName s)) by by apply isASCII_cleanName.
  rewrite (cleanName_bytes s) by done. rewrite map_bytes_compose.
  apply map_bytes_ext. intros c.
  destruct c as [[] [] [] [] [] [] [] []]; reflexivity.
Qed.

Lemma clean_bytes_only_app (a b : string) :
  clean_bytes_only a -> clean_bytes_only b -> clean_bytes_only (a ++ b).
Proof.
  unfold clean_bytes_only. intros Ha Hb.
  induction a as [|c a IH]; [exact Hb|].
  rewrite string_app_cons. simpl in *.
  apply Forall_cons in Ha as [Hc Ha]. constructor; [done|by apply IH].
Qed.

Lemma clean_byte_checked (c : ascii) :
  forallb (fun x => negb (Ascii.eqb x " ") && negb (Ascii.eqb x "(") &&
                    negb (Ascii.eqb x ")") && negb (Ascii.eqb x "/") &&
                    Ascii.eqb (GoStrings.lower_byte x) x)
          (list_ascii_of_string (clean_byte c)) = true.
Proof. destruct c as [[] [] [] [] [] [] [] []]; reflexivity. Qed.

Lemma clean_byte_only (c : ascii) : clean_bytes_only (clean_byte c).
Proof.
  unfold clean_bytes_only. apply Forall_forall. intros x Hx.
  pose proof (clean_byte_checked c) as H. rewrite forallb_forall in H.
  specialize (H x (proj1 (list_elem_of_In _ _) Hx)).
  repeat (apply andb_prop in H as [H ?]).
  repeat match goal with
         | E : negb (Ascii.eqb _ _) = true |- _ =>
             apply negb_true_iff, Ascii.eqb_neq in E
         end.
  by match goal with E : Ascii.eqb _ _ = true |- _ => apply Ascii.eqb_eq in E end.
Qed.

(** X2.  The cleaned form of an ASCII name is ASCII and holds no blank, no
    parenthesis, no slash and no capital letter. *)
Theorem cleanName_bytes_only (s : string) :
  GoStrings.isASCII s = true ->
  GoStrings.isASCII (cleanName s) = true /\ clean_bytes_only (cleanName s).
Proof.
  intros H. split; [by apply isASCII_cleanName|].
  rewrite cleanName_bytes by done. clear H.
  induction s as [|c s IH]; [constructor|].
  simpl. apply clean_bytes_only_app; [apply clean_byte_only|exact IH].
Qed.

Lemma cleanName_ToLower (u : string) :
  GoStrings.isASCII u = true -> cleanName (GoStrings.ToLower u) = cleanName u.
Proof.
  intros H. rewrite (ToLower_ascii u) by done.
  rewrite (cleanName_bytes (GoStrings.lower_bytes u)) by by apply isASCII_lower_bytes.
  rewrite (cleanName_bytes u) by done.
  rewrite lower_bytes_bytes, map_bytes_compose.
  apply map_bytes_ext. intros c.
  destruct c as [[] [] [] [] [] [] [] []]; reflexivity.
Qed.

(** X3.  [cleanName] does not see the case of ASCII names: a name and its
    lower-case form clean to the same string, and so do two names with the
    same lower-case form. *)
Theorem cleanName_ignores_case (s t : string) :
  GoStrings.isASCII s = true -> GoStrings.isASCII t = true ->
  cleanName (GoStrings.ToLower s) = cleanName s /\
  (GoStrings.ToLower s = GoStrings.ToLower t -> cleanName s = cleanName t).
Proof.
  intros Hs Ht. split; [by apply cleanName_ToLower|].
  intros E. by rewrite <- (cleanName_ToLower s), <- (cleanName_ToLower t), E.
Qed.

(** ** Column lookup *)

Lemma columnIndex_from_spec (k : Z) (name : string) (cols : list string) :
  (columnIndex_from k name cols = -1 /\
   Forall (fun col => cleanName name <> cleanName col) cols) \/
  (exists (i : nat) (col : string),
      columnIndex_from k name cols = k + Z.of_nat i /\
      cols !! i = Some col /\
      cleanName name = cleanName col /\
      Forall (fun col' => cleanName name <> cleanName col') (take i cols)).
Proof.
  revert k. induction cols as [|c cols IH]; intros k; [left; split; [done|constructor]|].
  simpl. destruct (String.eqb_spec (cleanName name) (cleanName c)) as [E|E].
  - right. exists 0%nat, c. repeat split; [lia|done|constructor].
  - destruct (IH (k + 1)) as [[H1 H2]|(i & col & H1 & H2 & H3 & H4)].
    + left. split; [done|by constructor].
    + right. exists (S i), col. repeat split; [lia|done|done|by constructor].
Qed.

(** X4.  [columnIndex] is -1 exactly when no column cleans to the cleaned
    name; otherwise it is the position, within the columns, of the first
    column that does (with duplicate column names the first one wins). *)
Theorem columnIndex_first_match (name : string) (cols : list string) :
  (columnIndex name cols = -1 /\
   Forall (fun col => cleanName name <> cleanName col) cols) \/
  (exists (i : nat) (col : string),
      columnIndex name cols = Z.of_nat i /\
      (i < length cols)%nat /\
      cols !! i = Some col /\
      cleanName name = cleanName col /\
      Forall (fun col' => cleanName name <> cleanName col') (take i cols)).
Proof.
  destruct (columnIndex_from_spec 0 name cols) as [H|(i & col & H1 & H2 & H3 & H4)];
    [by left|].
  right. exists i, col. repeat split; try done.
  by eapply lookup_lt_Some.
Qed.

(** X5.  Column lookup ignores the case of ASCII names on both sides: the
    index of a name among the columns is the index of its lower-case form
    among the lower-cased columns. *)
Theorem columnIndex_ignores_case (name : string) (cols : list string) :
  GoStrings.isASCII name = true ->
  Forall (fun col => GoStrings.isASCII col = true) cols ->
  columnIndex (GoStrings.ToLower name) (GoStrings.ToLower <$> cols) = columnIndex name cols.
Proof.
  intros Hn Hc. unfold columnIndex. generalize 0.
  induction Hc as [|c cols Hc Hcols IH]; intros k; [done|].
  simpl. by rewrite !cleanName_ToLower, IH.
Qed.

(** ** Splitting at one byte *)

Lemma rev_string_app (acc s : string) :
  GoStrings.rev_string acc s = (GoStrings.rev_string "" s ++ acc)%string.
Proof.
  revert acc. induction s as [|c s IH]; intros acc; [done|].
  simpl. rewrite (IH (String c acc)), (IH (String c "")).
  by rewrite string_app_assoc.
Qed.

Lemma rev_string_rev (cur s : string) :
  GoStrings.rev_string "" (GoStrings.rev_string cur s) =
  (GoStrings.rev_string "" cur ++ s)%string.
Proof.
  revert cur. induction s as [|c s IH]; intros cur; simpl.
  - by rewrite string_app_nil_r.
  - rewrite IH. simpl. rewrite (rev_string_app (String c "")).
    by rewrite string_app_assoc.
Qed.

Lemma has_byte_app c a b : has_byte c (a ++ b) = has_byte c a || has_byte c b.
Proof.
  induction a as [|x a IH]; [done|].
  rewrite string_app_cons. simpl. by rewrite IH, orb_assoc.
Qed.

Section SplitByte.

Variable c : ascii.

Lemma Split_from_skip (cur s t : string) :
  has_byte c s = false ->
  GoStrings.Split_from (String c "") 0 cur (s ++ t) =
  GoStrings.Split_from (String c "") 0 (GoStrings.rev_string cur s) t.
Proof.
  revert cur. induction s as [|x s IH]; intros cur H; [done|].
  simpl in H. apply orb_false_iff in H as [Hx Hs].
  rewrite string_app_cons. cbn [GoStrings.Split_from GoStrings.HasPrefix].
  rewrite Hx. simpl. by apply IH.
Qed.

Lemma Split_from_sep (cur t : string) :
  GoStrings.Split_from (String c "") 0 cur (String c t) =
  GoStrings.rev_string "" cur :: GoStrings.Split_from (String c "") 0 "" t.
Proof.
  cbn [GoStrings.Split_from GoStrings.HasPrefix].
  by rewrite Ascii.eqb_refl, HasPrefix_nil.
Qed.

(** A string without the separator is one piece. *)
Lemma Split_none (s : string) :
  has_byte c s = false -> GoStrings.Split s (String c "") = [s].
Proof.
  intros H. unfold GoStrings.Split.
  rewrite <- (string_app_nil_r s) at 1. rewrite Split_from_skip by done.
  simpl. by rewrite rev_string_rev.
Qed.

(** The first piece ends at the first separator. *)
Lemma Split_cons (s t : string) :
  has_byte c s = false ->
  GoStrings.Split (s ++ String c t) (String c "") = s :: GoStrings.Split t (String c "").
Proof.
  intros H. unfold GoStrings.Split.
  rewrite Split_from_skip, Split_from_sep by done. by rewrite rev_string_rev.
Qed.

Lemma Split_from_nonempty (cur s : string) :
  (1 <= length (GoStrings.Split_from (String c "") 0 cur s))%nat.
Proof.
  revert cur. induction s as [|x s IH]; intros cur; [simpl; lia|].
  cbn [GoStrings.Split_from GoStrings.HasPrefix]. rewrite HasPrefix_nil, andb_true_r.
  simpl. destruct (Ascii.eqb c x); simpl; [lia|apply IH].
Qed.

End SplitByte.

(** ** splitConnStr *)

(** X6.  A descriptor [user@host/service], optionally followed by
    [?options], splits into the host part and the service name: the user
    part holds no [@], the host part no [@] and no [/], the service name
    none of [@], [/] and [?], and the options no [@] and no [/]. *)
Theorem splitConnStr_user_host_service (user host svc rest : string) :
  has_byte "@" user = false ->
  has_byte "@" host = false -> has_byte "/" host = false ->
  has_byte "@" svc = false -> has_byte "/" svc = false -> has_byte "?" svc = false ->
  (rest = "" \/ exists opts, rest = String "?" opts /\
                  has_byte "@" opts = false /\ has_byte "/" opts = false) ->
  splitConnStr (user ++ "@" ++ host ++ "/" ++ svc ++ rest) = (host, svc).
Proof.
  intros Hu Hh1 Hh2 Hs1 Hs2 Hs3 Hrest. unfold splitConnStr.
  assert (Hr1 : has_byte "@" rest = false).
  { destruct Hrest as [->|(opts & -> & Ho & _)]; [done|]. simpl. by rewrite Ho. }
  assert (Hr2 : has_byte "/" rest = false).
  { destruct Hrest as [->|(opts & -> & _ & Ho)]; [done|]. simpl. by rewrite Ho. }
  change (user ++ "@" ++ host ++ "/" ++ svc ++ rest)%string
    with (user ++ String "@" (host ++ String "/" (svc ++ rest)))%string.
  rewrite Split_cons by done.
  rewrite (Split_none "@" (host ++ String "/" (svc ++ rest))).
  2:{ rewrite has_byte_app. simpl. by rewrite has_byte_app, Hh1, Hs1, Hr1. }
  cbn [length Nat.leb List.nth].
  rewrite Split_cons by done.
  rewrite (Split_none "/" (svc ++ rest)) by (by rewrite has_byte_app, Hs2, Hr2).
  cbn [length Nat.leb List.nth].
  destruct Hrest as [->|(opts & -> & _ & _)].
  - rewrite string_app_nil_r, Split_none by done. reflexivity.
  - rewrite Split_cons by done.
    pose proof (Split_from_nonempty "?" "" opts) as Hlen.
    unfold GoStrings.Split.
    destruct (GoStrings.Split_from "?" 0 "" opts); [simpl in Hlen; lia|]. reflexivity.
Qed.

(** X7.  A descriptor without [@], the empty descriptor of a placeholder
    target among them, or without [/] after its first [@], splits into the
    placeholders "??" and "???". *)
Theorem splitConnStr_placeholders (str : string) :
  (has_byte "@" str = false -> splitConnStr str = ("??", "???")) /\
  (forall user tail,
      str = (user ++ "@" ++ tail)%string ->
      has_byte "@" user = false -> has_byte "@" tail = false -> has_byte "/" tail = false ->
      splitConnStr str = ("??", "???")).
Proof.
  split.
  - intros H. unfold splitConnStr. by rewrite Split_none.
  - intros user tail -> Hu Ht1 Ht2. unfold splitConnStr.
    change (user ++ "@" ++ tail)%string with (user ++ String "@" tail)%string.
    rewrite Split_cons, (Split_none "@" tail) by done.
    cbn [length Nat.leb List.nth]. by rewrite Split_none.
Qed.

(** ** The probe line: written by testConn, read by execConn *)

Lemma has_byte_split (c : ascii) (s : string) :
  has_byte c s = true ->
  exists a b, s = (a ++ String c b)%string /\ has_byte c a = false.
Proof.
  induction s as [|x s IH]; [done|]. simpl.
  destruct (Ascii.eqb_spec c x) as [->|Hne]; simpl.
  - intros _. by exists "", s.
  - intros H. destruct (IH H) as (a & b & -> & Ha).
    exists (String x a), b. split; [done|]. simpl.
    rewrite Ha. by apply Ascii.eqb_neq in Hne as ->.
Qed.

Lemma Split_two_pieces (c : ascii) (s : string) :
  has_byte c s = true -> (2 <= length (GoStrings.Split s (String c "")))%nat.
Proof.
  intros H. destruct (has_byte_split c s H) as (a & b & -> & Ha).
  rewrite Split_cons by done. simpl.
  pose proof (Split_from_nonempty c "" b). unfold GoStrings.Split. lia.
Qed.

Lemma probe_line_fields (str elapsed : string) :
  has_byte " " str = false -> has_byte " " elapsed = false ->
  GoStrings.Split ("query time " ++ str ++ " " ++ elapsed) " "
  = ["query"; "time"; str; elapsed].
Proof.
  intros Hs He.
  change ("query time " ++ str ++ " " ++ elapsed)%string
    with ("query" ++ String " " ("time" ++ String " " (str ++ String " " elapsed)))%string.
  rewrite !Split_cons by done. by rewrite Split_none.
Qed.

Lemma probe_line_marker (rest : string) :
  GoStrings.Contains ("query time " ++ rest) "query time" = true.
Proof. reflexivity. Qed.

(** How [execConn] reads a line of the form [testConn] writes. *)
Lemma execConn_line_probe ParseFloat (str elapsed : string) (w : World) :
  has_byte " " str = false -> has_byte " " elapsed = false ->
  execConn_line ParseFloat ("query time " ++ str ++ " " ++ elapsed) w =
  match ParseFloat (elapsed_text elapsed) with
  | inr _ => used_times_set [(splitConnStr str).1; (splitConnStr str).2] (F64.of_Z 999) w
  | inl dr =>
      used_times_set [(splitConnStr str).1; (splitConnStr str).2; "connectsucc"]
        (if GoStrings.HasSuffix elapsed "ms" then F64.div dr (F64.of_Z 1000) else dr) w
  end.
Proof.
  intros Hs He. unfold execConn_line.
  rewrite probe_line_marker, probe_line_fields by done.
  cbn [length Nat.eqb List.nth]. unfold elapsed_text.
  destruct (splitConnStr str) as [ipport svname]. simpl.
  destruct (GoStrings.HasSuffix elapsed "ms"); by destruct (ParseFloat _).
Qed.

Lemma used_times_set_ok lvs x w :
  length lvs = length (Prom.variableLabels (used_times (exporter w))) ->
  used_times_set lvs x w =
  (inl (), {| exporter := set_used_times (exporter w)
                            (Prom.Set_ (used_times (exporter w)) lvs x);
              logged := logged w |}).
Proof.
  intros H. unfold used_times_set. erewrite bind_inl by reflexivity.
  unfold Prom.WithLabelValues. apply Nat.eqb_eq in H. by rewrite H.
Qed.

(** X8.  Round trip of the probe report.  When [testConn] reaches its
    target (open, ping and identity query succeed) it writes one line, and
    [execConn], reading that output, records the elapsed time of exactly
    that descriptor: under the host part and service name of the
    descriptor and "connectsucc", the number [ParseFloat] reads from the
    elapsed text without its unit, divided by 1000 when the unit is [ms].
    The descriptor and the elapsed text hold no blank and no newline, and
    the host part and the service name are valid UTF-8 (the label values
    [WithLabelValues] is modelled for). *)
Theorem testConn_report_is_read_back
        (ParseFloat : string -> F64.float64 + string)
        (sql_Open : string -> DB + string)
        (QueryRow_Scan3 : DB -> string -> (string * string * string) + string)
        (since_ping since_query str exe : string) (d : DB)
        (ident : string * string * string) (dr : F64.float64) (w : World) :
  sql_Open str = inl d ->
  PingContext d = None ->
  QueryRow_Scan3 d "select name, instance_name, host_name from v$database, v$instance"
    = inl ident ->
  has_byte " " str = false -> has_byte (ascii_of_nat 10) str = false ->
  has_byte " " since_query = false -> has_byte (ascii_of_nat 10) since_query = false ->
  ParseFloat (elapsed_text since_query) = inl dr ->
  valid_utf8 [(splitConnStr str).1; (splitConnStr str).2] ->
  length (Prom.variableLabels (used_times (exporter w))) = 3%nat ->
  execConn ParseFloat false (inl exe)
           (testConn sql_Open QueryRow_Scan3 since_ping since_query str).2 w
  = (inl (),
     {| exporter :=
          set_used_times (exporter w)
            (Prom.Set_ (used_times (exporter w))
               [(splitConnStr str).1; (splitConnStr str).2; "connectsucc"]
               (if GoStrings.HasSuffix since_query "ms"
                then F64.div dr (F64.of_Z 1000) else dr));
        logged := logged w |}).
Proof.
  intros Hopen Hping Hid Hs1 Hs2 He1 He2 Hparse _ Hvec.
  unfold testConn. rewrite Hopen, Hping, Hid. cbn [snd]. unfold execConn, newline.
  assert (Hline : has_byte (ascii_of_nat 10) ("query time " ++ str ++ " " ++ since_query) = false).
  { change ("query time " ++ str ++ " " ++ since_query)%string
      with ("query time " ++ (str ++ String " " since_query))%string.
    rewrite !has_byte_app. simpl. by rewrite Hs2, He2. }
  replace ("query time " ++ str ++ " " ++ since_query ++ String (ascii_of_nat 10) "")%string
    with (("query time " ++ str ++ " " ++ since_query) ++ String (ascii_of_nat 10) "")%string.
  2:{ change ("query time " ++ str ++ " " ++ since_query)%string
        with ("query time " ++ (str ++ (" " ++ since_query)))%string.
      by rewrite !string_app_assoc. }
  rewrite Split_cons by exact Hline.
  cbn [execConn_lines GoStrings.Split GoStrings.Split_from GoStrings.rev_string].
  erewrite bind_inl.
  2:{ rewrite execConn_line_probe, Hparse by done. apply used_times_set_ok. by rewrite Hvec. }
  erewrite bind_inl by (by apply execConn_line_no_marker). reflexivity.
Qed.

(** X9.  A report line whose descriptor holds a blank has more than four
    fields and is ignored, marker or not: nothing is recorded for that
    target. *)
Theorem execConn_ignores_descriptor_with_blank
        (ParseFloat : string -> F64.float64 + string) (str elapsed : string) (w : World) :
  has_byte " " str = true ->
  execConn_line ParseFloat ("query time " ++ str ++ " " ++ elapsed) w = (inl (), w).
Proof.
  intros H. destruct (has_byte_split " " str H) as (a & b & -> & Ha).
  unfold execConn_line. rewrite probe_line_marker.
  replace ("query time " ++ (a ++ String " " b) ++ " " ++ elapsed)%string
    with ("query" ++ String " " ("time" ++ String " " (a ++ String " " (b ++ String " " elapsed))))%string.
  2:{ change ("query time " ++ (a ++ String " " b) ++ " " ++ elapsed)%string
        with ("query" ++ String " " ("time" ++ String " "
                ((a ++ String " " b) ++ String " " elapsed)))%string.
      by rewrite (string_app_assoc a). }
  rewrite !Split_cons by done.
  pose proof (Split_two_pieces " " (b ++ String " " elapsed)) as Hlen.
  rewrite has_byte_app in Hlen. simpl in Hlen. rewrite orb_true_r in Hlen.
  specialize (Hlen eq_refl).
  destruct (GoStrings.Split (b ++ String " " elapsed) " ") as [|p1 [|p2 ps]];
    simpl in Hlen; try lia.
  reflexivity.
Qed.

(** ** execConn changes nothing but used_times *)

Lemma set_used_times_twice e v v' : set_used_times (set_used_times e v) v' = set_used_times e v'.
Proof. reflexivity. Qed.

Lemma same_but_used_times_refl w : same_but_used_times w w.
Proof.
  split; [done|]. exists (used_times (exporter w)). by destruct w as [[] ?].
Qed.

Lemma same_but_used_times_trans w1 w2 w3 :
  same_but_used_times w1 w2 -> same_but_used_times w2 w3 -> same_but_used_times w1 w3.
Proof.
  intros [Hl1 (v1 & He1 & Hv1)] [Hl2 (v2 & He2 & Hv2)].
  split; [congruence|]. exists v2. rewrite He2, He1 in *. simpl in *.
  split; [done|congruence].
Qed.

Lemma used_times_set_frame lvs x w r w' :
  used_times_set lvs x w = (r, w') -> same_but_used_times w w'.
Proof.
  unfold used_times_set. erewrite bind_inl by reflexivity.
  destruct (Prom.WithLabelValues _ _).
  - intros [= <- <-]. split; [done|]. by eexists.
  - intros [= <- <-]. apply same_but_used_times_refl.
Qed.

Lemma execConn_line_frame ParseFloat v w r w' :
  execConn_line ParseFloat v w = (r, w') -> same_but_used_times w w'.
Proof.
  unfold execConn_line.
  destruct (GoStrings.Contains v "query time"); [|intros [= <- <-]; apply same_but_used_times_refl].
  destruct (length (GoStrings.Split v " ") =? 4)%nat; [|intros [= <- <-]; apply same_but_used_times_refl].
  destruct (splitConnStr _) as [ipport svname].
  destruct (GoStrings.HasSuffix _ "ms"); destruct (ParseFloat _); apply used_times_set_frame.
Qed.

Lemma execConn_frame ParseFloat busy Executable cc w :
  same_but_used_times w (execConn ParseFloat busy Executable cc w).2.
Proof.
  unfold execConn. destruct busy; [apply same_but_used_times_refl|].
  destruct Executable; [|apply same_but_used_times_refl].
  generalize (GoStrings.Split cc newline). intros strs. revert w.
  induction strs as [|v strs IH]; intros w; [apply same_but_used_times_refl|].
  simpl. unfold mbind, M_bind, bind.
  destruct (execConn_line ParseFloat v w) as [[[]|sig] w1] eqn:E.
  - eapply same_but_used_times_trans; [by eapply execConn_line_frame|apply IH].
  - by eapply execConn_line_frame.
Qed.

(** X10.  Whatever the probe wrote and however [execConn] ends (normally
    or in a panic), it changes nothing but series of [used_times]: the log
    and every other field of the exporter are as before, and the vector
    keeps its name, help text and label names. *)
Theorem execConn_only_touches_used_times
        (ParseFloat : string -> F64.float64 + string) (busy : bool)
        (Executable : string + string) (cc : string) (w : World) :
  same_but_used_times w (execConn ParseFloat busy Executable cc w).2.
Proof. apply execConn_frame. Qed.

(** ** ScrapeCustomQueries changes nothing but custom series *)

Lemma set_custom_same (e : Exporter) : set_custom e (custom e) = e.
Proof. by destruct e. Qed.

Lemma same_but_custom_refl w : same_but_custom w w.
Proof.
  split; [exists []; by rewrite app_nil_r|].
  exists (custom (exporter w)). by rewrite set_custom_same.
Qed.

Lemma same_but_custom_trans w1 w2 w3 :
  same_but_custom w1 w2 -> same_but_custom w2 w3 -> same_but_custom w1 w3.
Proof.
  intros [[l1 Hl1] (c1 & He1 & Hc1)] [[l2 Hl2] (c2 & He2 & Hc2)].
  split.
  - exists (l1 ++ l2)%list. by rewrite Hl2, Hl1, app_assoc.
  - exists c2. rewrite He2, He1 in *. simpl in *. split; [done|congruence].
Qed.

Lemma preserves_ret {A} (a : A) : preserves same_but_custom (ret a).
Proof. intros w r w' [= <- <-]. apply same_but_custom_refl. Qed.

Lemma preserves_raise {A} (s : Signal) : preserves same_but_custom (@raise A s).
Proof. intros w r w' [= <- <-]. apply same_but_custom_refl. Qed.

Lemma preserves_bind {A B} (m : M A) (k : A -> M B) :
  preserves same_but_custom m -> (forall a, preserves same_but_custom (k a)) ->
  preserves same_but_custom (m ≫= k).
Proof.
  intros Hm Hk w r w'. unfold mbind, M_bind, bind.
  destruct (m w) as [[a|s] w1] eqn:E.
  - intros H. eapply same_but_custom_trans; [by eapply Hm|by eapply Hk].
  - intros [= <- <-]. by eapply Hm.
Qed.

Lemma preserves_log_entry l m : preserves same_but_custom (log_entry l m).
Proof.
  intros w r w' [= <- <-]. split; [by eexists|].
  exists (custom (exporter w)). simpl. by rewrite set_custom_same.
Qed.

Lemma preserves_custom_set query promLabels x :
  preserves same_but_custom (custom_set query promLabels x).
Proof.
  intros w r w'. unfold custom_set. erewrite bind_inl by reflexivity.
  destruct (custom (exporter w) !! Name query) as [vec|] eqn:Hvec;
    [|intros [= <- <-]; apply same_but_custom_refl].
  destruct (Prom.With vec promLabels) as [key|];
    [|intros [= <- <-]; apply same_but_custom_refl].
  intros [= <- <-]. split; [exists []; by rewrite app_nil_r|].
  eexists. split; [reflexivity|].
  rewrite fmap_insert. apply insert_id. by rewrite lookup_fmap, Hvec.
Qed.

Section CustomFrame.

Variables (conn : Config) (query : Query) (cols : list string).

Lemma preserves_label_loop vals labels promLabels :
  preserves same_but_custom (label_loop query cols vals labels promLabels).
Proof.
  revert promLabels. induction labels as [|l labels IH]; intros promLabels; simpl.
  - apply preserves_ret.
  - destruct (columnIndex l cols =? -1); [|apply IH].
    apply preserves_bind; [apply preserves_log_entry|intros; apply preserves_raise].
Qed.

Lemma preserves_metric_step vals rownum metric :
  preserves same_but_custom (metric_step conn query cols vals rownum metric).
Proof.
  unfold metric_step.
  destruct (columnIndex metric cols =? -1); [apply preserves_ret|].
  destruct (cell vals (columnIndex metric cols)); try apply preserves_ret.
  apply preserves_bind; [apply preserves_label_loop|intros; apply preserves_custom_set].
Qed.

Lemma preserves_MetricLoop vals rownum metrics :
  preserves same_but_custom (MetricLoop conn query cols vals rownum metrics).
Proof.
  induction metrics as [|m ms IH]; simpl; [apply preserves_ret|].
  apply preserves_bind; [apply preserves_metric_step|intros; apply IH].
Qed.

Lemma preserves_row_loop pending rownum :
  preserves same_but_custom (row_loop conn query cols pending rownum).
Proof.
  revert rownum. induction pending as [|row pending IH]; intros rownum; simpl;
    [apply preserves_ret|].
  destruct (Scan cols row); [|apply preserves_ret].
  apply preserves_bind; [apply preserves_MetricLoop|intros; apply IH].
Qed.

End CustomFrame.

Lemma preserves_QueryLoop_end body :
  preserves same_but_custom body -> preserves same_but_custom (QueryLoop_end body).
Proof.
  intros H w r w'. unfold QueryLoop_end.
  destruct (body w) as [[a|[| |v]] w1] eqn:E; intros [= <- <-]; by eapply H.
Qed.

Lemma preserves_queries_loop conn database queries :
  preserves same_but_custom (queries_loop conn database queries).
Proof.
  induction queries as [|q qs IH]; simpl; [apply preserves_ret|].
  destruct (QueryContext database (Sql q)); [|apply preserves_raise].
  apply preserves_bind; [|intros; apply IH].
  apply preserves_QueryLoop_end, preserves_row_loop.
Qed.

Lemma ScrapeCustomQueries_frame (conn : Config) (w : World) :
  same_but_custom w (ScrapeCustomQueries conn w).
Proof.
  unfold ScrapeCustomQueries. destruct (db conn) as [database|]; [|apply same_but_custom_refl].
  pose proof (preserves_queries_loop conn database (Queries conn) w) as H.
  destruct (queries_loop conn database (Queries conn) w) as [[a|[| |v]] w1];
    try (by eapply H).
  eapply same_but_custom_trans; [by eapply H|].
  split; [by eexists|]. exists (custom (exporter w1)). simpl. by rewrite set_custom_same.
Qed.

(** X11.  Whatever the target and the database answer, and whether the
    scrape ends normally, on a query error or in a recovered panic,
    [ScrapeCustomQueries] changes only series of custom vectors and adds
    log entries: no custom vector is added, removed or redeclared, and no
    built-in vector, counter or flag of the exporter changes. *)
Theorem ScrapeCustomQueries_only_touches_custom (conn : Config) (w : World) :
  same_but_custom w (ScrapeCustomQueries conn w).
Proof. apply ScrapeCustomQueries_frame. Qed.

(** ** What a well-formed custom query writes *)

Lemma upsert_all_app vec l1 l2 : upsert_all vec (l1 ++ l2) = upsert_all (upsert_all vec l1) l2.
Proof. apply fold_left_app. Qed.

Lemma upsert_all_labels vec l : Prom.variableLabels (upsert_all vec l) = Prom.variableLabels vec.
Proof. revert vec. induction l as [|kv l IH]; intros vec; [done|]. simpl. by rewrite IH. Qed.

Lemma with_custom_vec_same w name vec :
  custom (exporter w) !! name = Some vec -> with_custom_vec w name vec = w.
Proof.
  intros H. unfold with_custom_vec. rewrite insert_id by done.
  rewrite set_custom_same. by destruct w.
Qed.

Lemma with_custom_vec_twice w name vec vec' :
  with_custom_vec (with_custom_vec w name vec) name vec' = with_custom_vec w name vec'.
Proof. unfold with_custom_vec. simpl. by rewrite insert_insert_eq. Qed.

Lemma with_custom_vec_lookup w name vec :
  custom (exporter (with_custom_vec w name vec)) !! name = Some vec.
Proof. simpl. apply lookup_insert_eq. Qed.

Lemma emitted_with_custom_vec w name vec key x :
  emitted w name vec key x = with_custom_vec w name (Prom.Set_ vec key x).
Proof. reflexivity. Qed.

Section WellFormedQuery.

Variables (conn : Config) (query : Query) (cols : list string).

Hypothesis labels_present :
  Forall (fun label => columnIndex label cols <> -1) (Labels query).
Hypothesis labels_distinct : NoDup (custom_labels query).

Lemma metric_loop_writes vals rownum metrics vec w :
  custom (exporter w) !! Name query = Some vec ->
  Prom.variableLabels vec = custom_labels query ->
  valid_series
    (List.flat_map
       (fun metric =>
          if columnIndex metric cols =? -1 then []
          else match cell vals (columnIndex metric cols) with
               | VFloat64 x => [(series_key conn query cols vals metric rownum, x)]
               | _ => []
               end) metrics) ->
  MetricLoop conn query cols vals rownum metrics w =
  (inl (),
   with_custom_vec w (Name query)
     (upsert_all vec
        (List.flat_map
           (fun metric =>
              if columnIndex metric cols =? -1 then []
              else match cell vals (columnIndex metric cols) with
                   | VFloat64 x => [(series_key conn query cols vals metric rownum, x)]
                   | _ => []
                   end) metrics))).
Proof.
  revert vec w. induction metrics as [|m ms IH]; intros vec w Hvec Hdecl Hval.
  - simpl. by rewrite with_custom_vec_same.
  - rewrite MetricLoop_cons. cbn [List.flat_map] in *.
    apply Forall_app in Hval as [Hm Hms].
    destruct (columnIndex m cols =? -1) eqn:Hidx.
    + apply Z.eqb_eq in Hidx. rewrite metric_step_missing_column by done. by apply IH.
    + apply Z.eqb_neq in Hidx.
      destruct (cell vals (columnIndex m cols)) eqn:Hcell;
        try (rewrite metric_step_not_float by (intros ? ?; congruence); by apply IH).
      apply Forall_cons in Hm as [Hm _].
      rewrite (metric_step_float conn query cols vals rownum m f vec w) by done.
      rewrite emitted_with_custom_vec.
      rewrite (IH (Prom.Set_ vec (series_key conn query cols vals m rownum) f));
        [|apply with_custom_vec_lookup|done|done].
      by rewrite with_custom_vec_twice.
Qed.

Lemma row_loop_writes pending rownum vec w :
  custom (exporter w) !! Name query = Some vec ->
  Prom.variableLabels vec = custom_labels query ->
  valid_series (result_series conn query cols pending rownum) ->
  row_loop conn query cols pending rownum w =
  (inl (),
   with_custom_vec w (Name query)
     (upsert_all vec (result_series conn query cols pending rownum))).
Proof.
  revert rownum vec w.
  induction pending as [|row pending IH]; intros rownum vec w Hvec Hdecl Hval.
  - simpl. by rewrite with_custom_vec_same.
  - simpl in *. unfold Scan. destruct (Nat.eqb (length row) (length cols)).
    + apply Forall_app in Hval as [Hrow Hrest].
      erewrite bind_inl by (by apply metric_loop_writes).
      rewrite (IH _ (upsert_all vec (row_series conn query cols row rownum)));
        [|apply with_custom_vec_lookup|by rewrite upsert_all_labels|done].
      by rewrite with_custom_vec_twice, upsert_all_app.
    + simpl. by rewrite with_custom_vec_same.
Qed.

End WellFormedQuery.

Lemma queries_loop_well_formed conn database query queries rows vec w :
  QueryContext database (Sql query) = inl rows ->
  Forall (fun label => columnIndex label (Columns rows) <> -1) (Labels query) ->
  NoDup (custom_labels query) ->
  custom (exporter w) !! Name query = Some vec ->
  Prom.variableLabels vec = custom_labels query ->
  valid_series (result_series conn query (Columns rows) (fetch rows) 1) ->
  queries_loop conn database (query :: queries) w =
  queries_loop conn database queries
    (with_custom_vec w (Name query)
       (upsert_all vec (result_series conn query (Columns rows) (fetch rows) 1))).
Proof.
  intros Hq Hlabels Hnd Hvec Hdecl Hval. simpl. rewrite Hq.
  unfold mbind, M_bind, bind, QueryLoop_end.
  by rewrite (row_loop_writes conn query (Columns rows) Hlabels Hnd (fetch rows) 1 vec w).
Qed.

(** X12.  For a custom query whose labels all have a column and whose
    vector is declared as [addCustomsql] declares it, with pairwise
    distinct label names, and a result whose label values are valid
    UTF-8, the query writes exactly the float64 cells of its metric
    columns: row [i] (counted from 1, rows without a series included) and
    metric [m] give the series (label values of the row, [m], database,
    instance, [i]), written in row order, later writes replacing earlier
    ones of the same identity.  Nothing is logged, and the remaining
    queries of the target follow. *)
Theorem well_formed_query_writes_float_cells
        (conn : Config) (database : DB) (query : Query) (queries : list Query)
        (rows : Rows) (vec : GaugeVec) (w : World) :
  QueryContext database (Sql query) = inl rows ->
  Forall (fun label => columnIndex label (Columns rows) <> -1) (Labels query) ->
  NoDup (custom_labels query) ->
  custom (exporter w) !! Name query = Some vec ->
  Prom.variableLabels vec = custom_labels query ->
  valid_series (result_series conn query (Columns rows) (fetch rows) 1) ->
  queries_loop conn database (query :: queries) w =
  queries_loop conn database queries
    (with_custom_vec w (Name query)
       (upsert_all vec (result_series conn query (Columns rows) (fetch rows) 1))).
Proof. apply queries_loop_well_formed. Qed.

(** ** Writes are overwrites *)

Lemma upsert_all_cons vec kv l :
  upsert_all vec (kv :: l) = upsert_all (Prom.Set_ vec kv.1 kv.2) l.
Proof. reflexivity. Qed.

Lemma upsert_all_lookup vec l k :
  Prom.metrics (upsert_all vec l) !! k =
  match last_write k l with
  | Some x => Some x
  | None => Prom.metrics vec !! k
  end.
Proof.
  revert vec. induction l as [|kv l IH]; intros vec; [done|].
  rewrite upsert_all_cons, IH. cbn [last_write]. destruct (last_write k l); [done|]. simpl.
  destruct (decide (kv.1 = k)) as [->|Hne].
  - apply lookup_insert_eq.
  - by apply lookup_insert_ne.
Qed.

Lemma upsert_all_decl vec l :
  Prom.fqName (upsert_all vec l) = Prom.fqName vec /\
  Prom.help (upsert_all vec l) = Prom.help vec /\
  Prom.variableLabels (upsert_all vec l) = Prom.variableLabels vec.
Proof.
  revert vec. induction l as [|kv l IH]; intros vec; [done|].
  rewrite upsert_all_cons.
  destruct (IH (Prom.Set_ vec kv.1 kv.2)) as (H1 & H2 & H3). by rewrite H1, H2, H3.
Qed.

Lemma vec_eq (v1 v2 : GaugeVec) :
  Prom.fqName v1 = Prom.fqName v2 -> Prom.help v1 = Prom.help v2 ->
  Prom.variableLabels v1 = Prom.variableLabels v2 -> Prom.metrics v1 = Prom.metrics v2 ->
  v1 = v2.
Proof. destruct v1, v2. simpl. by intros -> -> -> ->. Qed.

Lemma upsert_all_twice vec l : upsert_all (upsert_all vec l) l = upsert_all vec l.
Proof.
  destruct (upsert_all_decl (upsert_all vec l) l) as (H1 & H2 & H3).
  apply vec_eq; try done.
  apply map_eq. intros k. rewrite upsert_all_lookup.
  destruct (last_write k l) eqn:E; [|done].
  by rewrite upsert_all_lookup, E.
Qed.

(** X13.  The writes of a well-formed custom query (label values valid
    UTF-8) are overwrites, not accumulations: run again on the world it
    has produced (same database answer), the query changes nothing.
    After the query, an identity holds the value of the last float64 cell
    that has it, and identities the query does not write keep their
    value. *)
Theorem custom_query_writes_are_idempotent
        (conn : Config) (database : DB) (query : Query) (queries : list Query)
        (rows : Rows) (vec : GaugeVec) (w : World) :
  QueryContext database (Sql query) = inl rows ->
  Forall (fun label => columnIndex label (Columns rows) <> -1) (Labels query) ->
  NoDup (custom_labels query) ->
  custom (exporter w) !! Name query = Some vec ->
  Prom.variableLabels vec = custom_labels query ->
  valid_series (result_series conn query (Columns rows) (fetch rows) 1) ->
  let writes := result_series conn query (Columns rows) (fetch rows) 1 in
  let w1 := with_custom_vec w (Name query) (upsert_all vec writes) in
  queries_loop conn database (query :: queries) w1 = queries_loop conn database queries w1 /\
  (forall k, Prom.metrics (upsert_all vec writes) !! k =
             match last_write k writes with
             | Some x => Some x
             | None => Prom.metrics vec !! k
             end).
Proof.
  intros Hq Hlabels Hnd Hvec Hdecl Hval writes w1.
  split; [|apply upsert_all_lookup].
  rewrite (queries_loop_well_formed conn database query queries rows
             (upsert_all vec writes) w1 Hq Hlabels Hnd);
    [|apply with_custom_vec_lookup|by rewrite upsert_all_labels|done].
  subst w1 writes. by rewrite with_custom_vec_twice, upsert_all_twice.
Qed.

(** ** Label names that clash *)

Lemma size_list_to_set_le (l : list string) :
  (size (list_to_set l : gset string) <= length l)%nat.
Proof.
  induction l as [|x l IH]; [by rewrite list_to_set_nil, size_empty|].
  rewrite list_to_set_cons, size_union_alt, size_singleton. simpl.
  pose proof (subseteq_size (list_to_set l ∖ {[x]}) (list_to_set l : gset string)) as H.
  assert (list_to_set l ∖ {[x]} ⊆ (list_to_set l : gset string)) by set_solver.
  specialize (H ltac:(done)). lia.
Qed.

Lemma size_list_to_set_lt (l : list string) :
  ~ NoDup l -> (size (list_to_set l : gset string) < length l)%nat.
Proof.
  induction l as [|x l IH]; intros Hnd; [destruct Hnd; constructor|].
  destruct (decide (x ∈ l)) as [Hin|Hnin].
  - assert (E : list_to_set (x :: l) = (list_to_set l : gset string)) by set_solver.
    rewrite E. pose proof (size_list_to_set_le l). simpl. lia.
  - assert (Hl : ~ NoDup l) by (intros H; apply Hnd; by constructor).
    specialize (IH Hl).
    rewrite list_to_set_cons, size_union_alt, size_singleton. simpl.
    pose proof (subseteq_size (list_to_set l ∖ {[x]}) (list_to_set l : gset string)) as H.
    assert (list_to_set l ∖ {[x]} ⊆ (list_to_set l : gset string)) by set_solver.
    specialize (H ltac:(done)). lia.
Qed.

Lemma with_labels_dom cols vals labels promLabels :
  dom (with_labels cols vals promLabels labels) =
  dom promLabels ∪ list_to_set (cleanName <$> labels).
Proof.
  revert promLabels. induction labels as [|l ls IH]; intros pl.
  - simpl. set_solver.
  - rewrite with_labels_cons, IH, dom_insert_L, fmap_cons, list_to_set_cons. set_solver.
Qed.

Lemma fixed_labels_dom conn metric rownum :
  dom (fixed_labels conn metric rownum)
  = list_to_set ["metric"; "database"; "dbinstance"; "rownum"].
Proof. unfold fixed_labels. rewrite !dom_insert_L, dom_empty_L. set_solver. Qed.

(** [With] refuses the labels of a vector whose declared label names are
    not pairwise distinct. *)
Lemma With_clashing_labels conn query cols vals metric rownum vec :
  Prom.variableLabels vec = custom_labels query ->
  ~ NoDup (custom_labels query) ->
  Prom.With vec (with_labels cols vals (fixed_labels conn metric rownum) (Labels query)) = None.
Proof.
  intros Hvec Hnd. unfold Prom.With. rewrite Hvec.
  pose proof (size_list_to_set_lt _ Hnd) as Hlt.
  assert (E : size (with_labels cols vals (fixed_labels conn metric rownum) (Labels query))
              = size (list_to_set (custom_labels query) : gset string)).
  { rewrite <- size_dom, with_labels_dom, fixed_labels_dom. unfold custom_labels.
    change (List.map cleanName (Labels query)) with (cleanName <$> Labels query).
    rewrite list_to_set_app_L. f_equal. set_solver. }
  rewrite E. destruct (Nat.eqb_spec (size (list_to_set (custom_labels query) : gset string))
                                    (length (custom_labels query))); [lia|done].
Qed.

Section ClashingLabels.

Variables (conn : Config) (query : Query) (cols : list string) (vec : GaugeVec).

Hypothesis labels_present :
  Forall (fun label => columnIndex label cols <> -1) (Labels query).
Hypothesis labels_clash : ~ NoDup (custom_labels query).
Hypothesis declared : Prom.variableLabels vec = custom_labels query.

Lemma metric_step_clash vals rownum metric w :
  custom (exporter w) !! Name query = Some vec ->
  silent vec w (metric_step conn query cols vals rownum metric w).
Proof.
  intros Hvec. unfold metric_step.
  destruct (columnIndex metric cols =? -1); [by left|].
  destruct (cell vals (columnIndex metric cols)); try by left.
  right. erewrite bind_inl by (by apply label_loop_present).
  unfold custom_set. erewrite bind_inl by reflexivity.
  by rewrite Hvec, With_clashing_labels.
Qed.

Lemma MetricLoop_clash vals rownum metrics w :
  custom (exporter w) !! Name query = Some vec ->
  silent vec w (MetricLoop conn query cols vals rownum metrics w).
Proof.
  intros Hvec. induction metrics as [|m ms IH]; [by left|].
  rewrite MetricLoop_cons.
  destruct (metric_step_clash vals rownum m w Hvec) as [->| ->]; [exact IH|by right].
Qed.

Lemma row_loop_clash pending rownum w :
  custom (exporter w) !! Name query = Some vec ->
  silent vec w (row_loop conn query cols pending rownum w).
Proof.
  intros Hvec. revert rownum.
  induction pending as [|row pending IH]; intros rownum; [by left|].
  simpl. destruct (Scan cols row) as [vals|]; [|by left].
  destruct (MetricLoop_clash vals rownum (Metrics query) w Hvec) as [H|H].
  - erewrite bind_inl by exact H. apply IH.
  - erewrite bind_inr by exact H. by right.
Qed.

End ClashingLabels.

(** X14.  A custom query whose declared label names are not pairwise
    distinct once cleaned and joined with "metric", "database",
    "dbinstance" and "rownum" (a label that cleans to one of these four,
    or two labels that clean alike) never writes a series, although all
    its label columns exist: either no cell is a float64 and the loop goes
    on, or the first float64 cell panics in [With]; [ScrapeCustomQueries]
    then logs the recovered panic and returns without running the
    remaining queries of the target. *)
Theorem clashing_label_names_never_write
        (conn : Config) (database : DB) (query : Query) (queries : list Query)
        (rows : Rows) (vec : GaugeVec) (w : World) :
  QueryContext database (Sql query) = inl rows ->
  Forall (fun label => columnIndex label (Columns rows) <> -1) (Labels query) ->
  ~ NoDup (custom_labels query) ->
  custom (exporter w) !! Name query = Some vec ->
  Prom.variableLabels vec = custom_labels query ->
  queries_loop conn database (query :: queries) w = queries_loop conn database queries w \/
  (queries_loop conn database (query :: queries) w
   = (inr (Panic (InconsistentLabels (Prom.fqName vec))), w) /\
   (db conn = Some database -> Queries conn = query :: queries ->
    ScrapeCustomQueries conn w
    = add_log w [(ErrorLevel, Recovered (InconsistentLabels (Prom.fqName vec)))])).
Proof.
  intros Hq Hlabels Hnd Hvec Hdecl.
  assert (E : queries_loop conn database (query :: queries) w =
              match row_loop conn query (Columns rows) (fetch rows) 1 w with
              | (inr BreakQueryLoop, w') | (inl _, w') => queries_loop conn database queries w'
              | r => r
              end).
  { simpl. rewrite Hq. unfold mbind, M_bind, bind, QueryLoop_end.
    by destruct (row_loop conn query (Columns rows) (fetch rows) 1 w) as [[[]|[| |?]] ?]. }
  destruct (row_loop_clash conn query (Columns rows) vec Hlabels Hnd Hdecl (fetch rows) 1 w Hvec)
    as [H|H]; rewrite H in E.
  - by left.
  - right. split; [exact E|]. intros Hdb Hqs.
    unfold ScrapeCustomQueries. by rewrite Hdb, Hqs, E.
Qed.

(** ** addCustomsql *)

Lemma addCustomsql_queries_lookup qs c name :
  addCustomsql_queries qs c !! name =
  match last_query name qs with
  | Some q => Some (declared_vec q)
  | None => c !! name
  end.
Proof.
  revert c. induction qs as [|q qs IH]; intros c; [done|].
  unfold addCustomsql_queries in *. cbn [List.fold_left last_query].
  rewrite IH. destruct (last_query name qs); [done|].
  destruct (String.eqb_spec (Name q) name) as [<-|Hne].
  - apply lookup_insert_eq.
  - by apply lookup_insert_ne.
Qed.

Lemma addCustomsql_queries_app qs1 qs2 c :
  addCustomsql_queries (qs1 ++ qs2) c = addCustomsql_queries qs2 (addCustomsql_queries qs1 c).
Proof. apply fold_left_app. Qed.

Lemma addCustomsql_fold cfgs c :
  List.fold_left (fun c conn => addCustomsql_queries (Queries conn) c) cfgs c =
  addCustomsql_queries (List.concat (List.map Queries cfgs)) c.
Proof.
  revert c. induction cfgs as [|conn cfgs IH]; intros c; [done|].
  simpl. by rewrite IH, addCustomsql_queries_app.
Qed.

Lemma last_query_name name qs q : last_query name qs = Some q -> Name q = name /\ q ∈ qs.
Proof.
  induction qs as [|q0 qs IH]; [done|]. simpl.
  destruct (last_query name qs) as [q'|].
  - intros [= <-]. destruct (IH eq_refl). split; [done|by right].
  - destruct (String.eqb_spec (Name q0) name); [|done].
    intros [= <-]. split; [done|left].
Qed.

Lemma last_query_is_Some name qs q : q ∈ qs -> Name q = name -> is_Some (last_query name qs).
Proof.
  induction qs as [|q0 qs IH]; intros Hin Hn; [by apply elem_of_nil in Hin|].
  simpl. apply elem_of_cons in Hin as [->|Hin].
  - destruct (last_query name qs); [done|]. rewrite Hn, String.eqb_refl. done.
  - destruct (IH Hin Hn) as [q' ->]. done.
Qed.

Lemma addCustomsql_lookup (config : Configs) (e : Exporter) (name : string) :
  custom (addCustomsql config e) !! name =
  match last_query name (all_queries config) with
  | Some q => Some (declared_vec q)
  | None => custom e !! name
  end.
Proof.
  unfold addCustomsql. simpl.
  by rewrite addCustomsql_fold, addCustomsql_queries_lookup.
Qed.

Lemma addCustomsql_dom (config : Configs) (e : Exporter) :
  dom (custom e) ⊆ dom (custom (addCustomsql config e)).
Proof.
  intros name Hname. apply elem_of_dom. apply elem_of_dom in Hname.
  rewrite addCustomsql_lookup. by destruct (last_query name (all_queries config)).
Qed.

Lemma addCustomsql_registered (config : Configs) (e : Exporter) conn query :
  conn ∈ Cfgs config -> query ∈ Queries conn ->
  exists q', q' ∈ all_queries config /\ Name q' = Name query /\
             custom (addCustomsql config e) !! Name query = Some (declared_vec q').
Proof.
  intros Hconn Hq.
  assert (Hin : query ∈ all_queries config).
  { unfold all_queries. apply list_elem_of_In, in_concat.
    exists (Queries conn). split; [|by apply list_elem_of_In].
    apply in_map. by apply list_elem_of_In. }
  destruct (last_query_is_Some (Name query) _ query Hin eq_refl) as [q' Hq'].
  destruct (last_query_name _ _ _ Hq') as [Hn Hin'].
  exists q'. split; [done|]. split; [done|]. by rewrite addCustomsql_lookup, Hq'.
Qed.

(** X15.  [addCustomsql] touches nothing but the custom vectors.  After it,
    a name that some query of the configuration bears is registered with a
    new, empty vector declared from the last query of that name in
    configuration order (its cleaned labels, then "metric", "database",
    "dbinstance", "rownum"); a name no query bears keeps the vector it had,
    series included: nothing is ever unregistered. *)
Theorem addCustomsql_registers_last_declaration (config : Configs) (e : Exporter) :
  (exists c, addCustomsql config e = set_custom e c) /\
  (forall name,
      custom (addCustomsql config e) !! name =
      match last_query name (all_queries config) with
      | Some q => Some (declared_vec q)
      | None => custom e !! name
      end) /\
  (forall conn query,
      conn ∈ Cfgs config -> query ∈ Queries conn ->
      exists q', q' ∈ all_queries config /\ Name q' = Name query /\
                 custom (addCustomsql config e) !! Name query = Some (declared_vec q') /\
                 Prom.metrics (declared_vec q') = ∅ /\
                 length (Prom.variableLabels (declared_vec q')) = (length (Labels q') + 4)%nat) /\
  dom (custom e) ⊆ dom (custom (addCustomsql config e)).
Proof.
  split; [by eexists|]. split; [apply addCustomsql_lookup|]. split; [|apply addCustomsql_dom].
  intros conn query Hconn Hq.
  destruct (addCustomsql_registered config e conn query Hconn Hq) as (q' & H1 & H2 & H3).
  exists q'. repeat (split; [done|]).
  simpl. unfold custom_labels. rewrite length_app, length_map. simpl. lia.
Qed.

(** ** The reset *)

Lemma Reset_Reset v : Prom.Reset (Prom.Reset v) = Prom.Reset v.
Proof. reflexivity. Qed.

Lemma resetAllMetrics_set_custom e c :
  Prom.Reset <$> c = Prom.Reset <$> custom e ->
  resetAllMetrics (set_custom e c) = resetAllMetrics e.
Proof. intros H. unfold resetAllMetrics. simpl. by rewrite H. Qed.

(** X16.  The reset is idempotent, it keeps every declaration (the custom
    vectors registered and, for each vector, its name, help text and label
    names), and it wipes whatever [ScrapeCustomQueries] or [execConn]
    wrote: resetting after them gives the exporter that resetting before
    them gives. *)
Theorem resetAllMetrics_wipes_a_scrape (e : Exporter) :
  resetAllMetrics (resetAllMetrics e) = resetAllMetrics e /\
  Prom.Reset <$> custom (resetAllMetrics e) = Prom.Reset <$> custom e /\
  Forall2 (fun v v' => Prom.Reset v' = Prom.Reset v)
          (all_gauge_vecs e) (all_gauge_vecs (resetAllMetrics e)) /\
  (forall conn logs,
      resetAllMetrics (exporter (ScrapeCustomQueries conn {| exporter := e; logged := logs |}))
      = resetAllMetrics e) /\
  (forall ParseFloat busy Executable cc logs,
      resetAllMetrics (exporter (execConn ParseFloat busy Executable cc
                                          {| exporter := e; logged := logs |}).2)
      = resetAllMetrics e).
Proof.
  assert (Hfmap : Prom.Reset <$> (Prom.Reset <$> custom e) = Prom.Reset <$> custom e).
  { rewrite <- map_fmap_compose. apply map_fmap_ext. done. }
  split; [|split; [|split; [|split]]].
  - unfold resetAllMetrics. simpl. by rewrite Hfmap.
  - exact Hfmap.
  - repeat constructor.
  - intros conn logs.
    destruct (ScrapeCustomQueries_frame conn {| exporter := e; logged := logs |})
      as [_ (c & -> & Hc)].
    by apply resetAllMetrics_set_custom.
  - intros ParseFloat busy Executable cc logs.
    destruct (execConn_frame ParseFloat busy Executable cc
                {| exporter := e; logged := logs |}) as [_ (v & -> & Hv)].
    simpl in *. unfold resetAllMetrics. simpl. by rewrite Hv.
Qed.

(** ** Connect: the ways a target fails *)

Lemma up_set_ok conf x w :
  length (Prom.variableLabels (up (exporter w))) = 2%nat ->
  up_set conf x w = (inl (), with_up w [Database conf; Instance conf] x).
Proof.
  intros H. unfold up_set. erewrite bind_inl by reflexivity.
  unfold Prom.WithLabelValues. simpl. by rewrite H.
Qed.

Lemma len_pos (s : string) : (0 <? GoStrings.len s) = negb (String.eqb s "").
Proof. by destruct s. Qed.

(** X17.  A target with an empty connection descriptor is a placeholder:
    whatever [sql.Open] would answer, no connection is attempted, the
    target comes back without a handle and with its configured names, and
    it is recorded as down ([up] = 0 under those names, which are valid
    UTF-8: the label values [WithLabelValues] is modelled for). *)
Theorem connect_placeholder_is_down
        (sql_Open : string -> DB + string) (conf : Config) (w : World) :
  Connection conf = "" ->
  valid_utf8 [Database conf; Instance conf] ->
  length (Prom.variableLabels (up (exporter w))) = 2%nat ->
  connect_target sql_Open conf w =
  (inl (set_db conf None), with_up w [Database conf; Instance conf] (F64.of_Z 0)).
Proof.
  intros Hc _ Hup. unfold connect_target. simpl. rewrite Hc. simpl.
  erewrite bind_inl; [reflexivity|]. by rewrite up_set_ok.
Qed.

(** X18.  When [sql.Open] fails, or the ping of the opened handle fails,
    the target comes back without a handle and nothing at all is recorded:
    the world is unchanged, so the target has no [up] series, neither 1
    nor 0. *)
Theorem connect_open_or_ping_failure_records_nothing
        (sql_Open : string -> DB + string) (conf : Config) (w : World) :
  Connection conf <> "" ->
  ((exists err, sql_Open (Connection conf) = inr err) \/
   (exists d err, sql_Open (Connection conf) = inl d /\ PingContext d = Some err)) ->
  connect_target sql_Open conf w = (inl (set_db conf None), w).
Proof.
  intros Hc H. unfold connect_target. simpl.
  rewrite len_pos. apply String.eqb_neq in Hc. rewrite Hc. simpl.
  destruct H as [[err ->]|(d & err & -> & ->)]; reflexivity.
Qed.

(** X19.  When the handle opens and answers the ping but the identity
    query fails, the target is recorded as down under its configured
    names (valid UTF-8: the label values [WithLabelValues] is modelled
    for) and the error is logged; yet it comes back with the handle still
    set, so the caller takes it for connected. *)
Theorem connect_identity_failure_keeps_handle
        (sql_Open : string -> DB + string) (conf : Config) (d : DB) (err : string)
        (w : World) :
  Connection conf <> "" ->
  sql_Open (Connection conf) = inl d ->
  PingContext d = None ->
  QueryRow_Scan2 d "select db_unique_name,instance_name from v$database,v$instance"
    = inr err ->
  valid_utf8 [Database conf; Instance conf] ->
  length (Prom.variableLabels (up (exporter w))) = 2%nat ->
  connect_target sql_Open conf w =
  (inl (set_db conf (Some d)),
   add_log (with_up w [Database conf; Instance conf] (F64.of_Z 0))
           [(ErrorLevel, Text ("Error connecting to database: " ++ err)%string)]).
Proof.
  intros Hc Hopen Hping Hid _ Hup. unfold connect_target. simpl.
  rewrite len_pos. apply String.eqb_neq in Hc. rewrite Hc. simpl.
  rewrite Hopen, Hping, Hid.
  erewrite bind_inl by (by rewrite up_set_ok).
  reflexivity.
Qed.

(** ** Connect: one answer per target *)







Lemma same_target_set_db conf d : same_target conf (set_db conf d).
Proof. done. Qed.




(** ** The timeout stays in range *)

Lemma setTimeout_step (ts : string) (g : Globals) :
  (setTimeout ts g).2 = g \/
  exists t, 1 < t < 15 /\
            (setTimeout ts g).2 = {| config := config g; pwd := pwd g; timeout := t;
                                     closing := closing g; glog := glog g |}.
Proof.
  unfold setTimeout. destruct (Strconv.Atoi ts) as [t|err]; [|by left].
  destruct ((t >=? 15) || (t <=? 1)) eqn:E; [by left|].
  right. exists t. apply orb_false_iff in E as [E1 E2]. split; [lia|done].
Qed.

(** X21.  Whatever is requested on [/setTimeout], in whatever sequence
    (numbers in or out of range, text that is no number), a stored timeout
    strictly between 1 and 15 stays strictly between 1 and 15, and the
    requests change no other global: configuration, working directory,
    pending closes and log are as before. *)
Theorem setTimeout_keeps_range (requests : list string) (g : Globals) :
  1 < timeout g < 15 ->
  1 < timeout (setTimeout_all requests g) < 15 /\
  config (setTimeout_all requests g) = config g /\
  pwd (setTimeout_all requests g) = pwd g /\
  closing (setTimeout_all requests g) = closing g /\
  glog (setTimeout_all requests g) = glog g.
Proof.
  revert g. induction requests as [|ts requests IH]; intros g Hg; [done|].
  unfold setTimeout_all in *. cbn [List.fold_left].
  destruct (setTimeout_step ts g) as [->|(t & Ht & ->)]; [by apply IH|].
  by apply (IH {| config := config g; pwd := pwd g; timeout := t;
                  closing := closing g; glog := glog g |}).
Qed.

(** ** A successful reload *)

(** X22.  When the configuration file is read and parsed, the reload
    answers with the new configuration, which becomes the active one; the
    previous configuration is handed to [CloseConnection]; timeout is
    untouched.  Every query of the new configuration is then registered
    under its name, and every custom vector registered before the reload
    is still registered: a reload never removes a metric family. *)
Theorem reloadConfig_success
        (path content : string) (yaml_Unmarshal : string -> Configs + string)
        (c : Configs) (e : Exporter) (g : Globals) :
  yaml_Unmarshal content = inl c ->
  exists e' g',
    reloadConfig (inl path) (inl content) yaml_Unmarshal e g = Returns (ConfigJson c, e') g' /\
    config g' = c /\ pwd g' = path /\ timeout g' = timeout g /\
    closing g' = (closing g ++ [config g])%list /\
    e' = addCustomsql c e /\
    dom (custom e) ⊆ dom (custom e') /\
    (forall conn query, conn ∈ Cfgs c -> query ∈ Queries conn ->
                        is_Some (custom e' !! Name query)).
Proof.
  intros Hparse. unfold reloadConfig, loadConfig. rewrite Hparse. simpl.
  eexists _, _. split; [reflexivity|]. simpl. repeat (split; [done|]).
  split; [apply addCustomsql_dom|].
  intros conn query Hconn Hq.
  destruct (addCustomsql_registered c e conn query Hconn Hq) as (q' & _ & _ & H).
  exact (ex_intro _ _ H).
Qed.

End Properties.

(* ===================================================================== *)
(** * Examples *)
(* ===================================================================== *)

(** The names of the examples are ASCII, so that [strings.ToLower] never
    consults the Unicode tables; [ex_unicode] stands in their place. *)
#[local] Existing Instance ex_unicode.

(** C1 at a target with a failing query followed by a healthy one: nothing
    is written, although the healthy query alone writes its series. *)
Lemma query_error_aborts_sibling_specs_witness :
  QueryContext ex_database (Sql ex_query_bad) = inr "ORA-00942: table or view does not exist" /\
  queries_loop (ex_conn [ex_query_bad; ex_query_ok]) ex_database [ex_query_bad; ex_query_ok]
               (ex_world [ex_query_bad; ex_query_ok])
  = (inr ReturnFromFunction, ex_world [ex_query_bad; ex_query_ok]) /\
  ScrapeCustomQueries (ex_conn [ex_query_bad; ex_query_ok]) (ex_world [ex_query_bad; ex_query_ok])
  = ex_world [ex_query_bad; ex_query_ok] /\
  Prom.metrics <$> custom (exporter (ScrapeCustomQueries (ex_conn [ex_query_ok])
                                       (ex_world [ex_query_bad; ex_query_ok]))) !! "q_ok"
  = Some {[ ["v"; "PROD"; "prod1"; "1"] := F64.of_Z 1 ]}.
Proof.
  split; [reflexivity|].
  destruct (query_error_aborts_sibling_specs
              (ex_conn [ex_query_bad; ex_query_ok]) ex_database ex_query_bad [ex_query_ok]
              "ORA-00942: table or view does not exist"
              (ex_world [ex_query_bad; ex_query_ok]) eq_refl) as [Hloop Hscrape].
  split; [exact Hloop|]. split; [exact (Hscrape eq_refl eq_refl)|].
  vm_compute. reflexivity.
Defined.

Lemma label_mismatch_emits_nothing_witness :
  exists w',
    exporter w' = exporter (ex_world [ex_query_label; ex_query_ok]) /\
    (w' = ex_world [ex_query_label; ex_query_ok] \/
     exists label, label ∈ Labels ex_query_label /\
       w' = add_log (ex_world [ex_query_label; ex_query_ok])
                    [(WarnLevel, label_not_found ex_query_label label)]) /\
    queries_loop (ex_conn [ex_query_label; ex_query_ok]) ex_database
                 [ex_query_label; ex_query_ok] (ex_world [ex_query_label; ex_query_ok])
    = queries_loop (ex_conn [ex_query_label; ex_query_ok]) ex_database [ex_query_ok] w'.
Proof.
  apply (label_mismatch_emits_nothing _ ex_database ex_query_label [ex_query_ok] ex_rows_v).
  - reflexivity.
  - exists "missing_col". split; [apply list_elem_of_here|reflexivity].
Defined.


Lemma non_float_metric_cell_emits_nothing_witness :
  metric_step (ex_conn [ex_query_ok]) ex_query_ok ["V"] [VString "12"] 1 "v"
              (ex_world [ex_query_ok]) = (inl (), ex_world [ex_query_ok]) /\
  MetricLoop (ex_conn [ex_query_ok]) ex_query_ok ["V"] [VString "12"] 1 ["v"; "w"]
             (ex_world [ex_query_ok]) =
  MetricLoop (ex_conn [ex_query_ok]) ex_query_ok ["V"] [VString "12"] 1 ["w"]
             (ex_world [ex_query_ok]).
Proof.
  apply non_float_metric_cell_emits_nothing.
  - vm_compute. discriminate.
  - intros f. vm_compute. discriminate.
Defined.

(** C5, as stated, fails: [resetAllMetrics] clears the per-phase timing
    series.  The timing of the connect phase of a target, present before
    the reset, is gone after it. *)
Lemma reset_clears_phase_timings :
  Prom.metrics (used_times ex_exporter_timed) !! ["db1:1521"; "orcl"; "connect"]
    = Some (F64.of_Z 12) /\
  Prom.metrics (used_times (resetAllMetrics ex_exporter_timed)) !! ["db1:1521"; "orcl"; "connect"]
    = None /\
  used_times (resetAllMetrics ex_exporter_timed) <> used_times ex_exporter_timed.
Proof.
  split; [vm_compute; reflexivity|]. split; [vm_compute; reflexivity|].
  intros H. apply (f_equal (fun v => Prom.metrics v !! ["db1:1521"; "orcl"; "connect"])) in H.
  vm_compute in H. discriminate.
Qed.

Lemma resetAllMetrics_frame_witness :
  custom (resetAllMetrics ex_exporter_timed) !! "q_ok"
  = Some (Prom.NewVec namespace "" "custom_q_ok" "" ["metric"; "database"; "dbinstance"; "rownum"])
  /\ Prom.metrics (Prom.NewVec namespace "" "custom_q_ok" ""
                               ["metric"; "database"; "dbinstance"; "rownum"]) = ∅.
Proof.
  assert (H : custom (resetAllMetrics ex_exporter_timed) !! "q_ok"
              = Some (Prom.NewVec namespace "" "custom_q_ok" ""
                                  ["metric"; "database"; "dbinstance"; "rownum"])).
  { vm_compute. reflexivity. }
  split; [exact H|].
  destruct (resetAllMetrics_frame ex_exporter_timed) as (_ & _ & _ & _ & _ & _ & Hc & _).
  exact (Hc _ _ H).
Defined.

Lemma loadConfig_failure_exits_witness :
  ((exists err, (inl "connections: [" : string + string) = inr err) \/
   (exists content err, (inl "connections: [" : string + string) = inl content /\
                        ex_yaml_Unmarshal content = inr err)) /\
  exists g',
    loadConfig (inl "/opt/exporter") (inl "connections: [") ex_yaml_Unmarshal ex_globals
      = Exits 1 g' /\
    config g' = config ex_globals /\
    (forall reload g'',
        loadConfig (inl "/opt/exporter") (inl "connections: [") ex_yaml_Unmarshal ex_globals
        <> Returns reload g'').
Proof.
  assert (H : (exists err, (inl "connections: [" : string + string) = inr err) \/
              (exists content err, (inl "connections: [" : string + string) = inl content /\
                                   ex_yaml_Unmarshal content = inr err)).
  { right. exists "connections: [", "yaml: line 1: did not find expected key".
    split; reflexivity. }
  split; [exact H|].
  exact (loadConfig_failure_exits "/opt/exporter" (inl "connections: [")
                                  ex_yaml_Unmarshal ex_globals H).
Defined.

Lemma setTimeout_open_interval_witness :
  Strconv.Atoi "10" = inl 10 /\
  getTimeout ex_globals = "current timeout=5" /\
  (10 <= 1 \/ 15 <= 10 ->
   setTimeout "10" ex_globals = (TimeoutText "bad timeout, 1<v<15", ex_globals)) /\
  (1 < 10 < 15 ->
   timeout (setTimeout "10" ex_globals).2 = 10 /\
   (setTimeout "10" ex_globals).1 = TimeoutText "ok, timeout=10" /\
   getTimeout (setTimeout "10" ex_globals).2 = "current timeout=10" /\
   config (setTimeout "10" ex_globals).2 = config ex_globals).
Proof.
  split; [reflexivity|].
  apply (setTimeout_open_interval "10" 10 ex_globals). reflexivity.
Defined.

Lemma malformed_elapsed_time_panics_witness :
  GoStrings.Contains "query time scott/tiger@db1:1521/orcl 1m2.5s" "query time" = true /\
  ex_ParseFloat "1m2.5" = inr "invalid syntax" /\
  execConn ex_ParseFloat false (inl "/opt/exporter/oracle_exporter") ex_probe_output
           (ex_world [])
  = (inr (Panic (InconsistentLabels "oracledb_collect_used_times")), ex_world []).
Proof.
  split; [reflexivity|]. split; [reflexivity|].
  change (execConn_lines ex_ParseFloat
            ("ping time scott/tiger@db1:1521/orcl 35ms"
             :: "query time scott/tiger@db1:1521/orcl 1m2.5s"
             :: ["query time scott/tiger@db2:1521/orcl 41.5ms"; ""]) (ex_world [])
          = (inr (Panic (InconsistentLabels "oracledb_collect_used_times")), ex_world [])).
  simpl execConn_lines at 1.
  erewrite bind_inl by (apply execConn_line_no_marker; reflexivity).
  apply (malformed_elapsed_time_panics ex_ParseFloat
           "query time scott/tiger@db1:1521/orcl 1m2.5s"
           ["query time scott/tiger@db2:1521/orcl 41.5ms"; ""] "invalid syntax" (ex_world []));
    reflexivity.
Defined.

(** C9, as stated, fails: a target configured with the database name
    "PROD" and no instance name comes back from the connect phase with the
    discovered database name "ORCL" in place of the configured one. *)
Lemma connect_overwrites_configured_database :
  exists conf' w',
    connect_target ex_sql_Open ex_conf_half (ex_world []) = (inl conf', w') /\
    Database ex_conf_half = "PROD" /\
    Database conf' = "ORCL" /\
    Database conf' <> Database ex_conf_half.
Proof. eexists _, _. split; [vm_compute; reflexivity|]. repeat split. discriminate. Qed.

Lemma connect_replaces_identity_as_a_pair_witness :
  exists conf' w',
    connect_target ex_sql_Open ex_conf_half (ex_world []) = (inl conf', w') /\
    db conf' = Some ex_database /\
    (Database ex_conf_half = "" \/ Instance ex_conf_half = "" ->
     Database conf' = "ORCL" /\ Instance conf' = "orcl1") /\
    (Database ex_conf_half <> "" -> Instance ex_conf_half <> "" ->
     Database conf' = Database ex_conf_half /\ Instance conf' = Instance ex_conf_half).
Proof.
  apply (connect_replaces_identity_as_a_pair ex_sql_Open ex_conf_half ex_database
           "ORCL" "orcl1" (ex_world [])); try reflexivity.
  discriminate.
Defined.

Lemma cleanName_idempotent_witness :
  GoStrings.isASCII "Buffer Cache (Hit/Ratio)" = true /\
  cleanName (cleanName "Buffer Cache (Hit/Ratio)") = cleanName "Buffer Cache (Hit/Ratio)".
Proof.
  split; [reflexivity|].
  apply (cleanName_idempotent "Buffer Cache (Hit/Ratio)"). reflexivity.
Defined.

Lemma cleanName_bytes_only_witness :
  GoStrings.isASCII (cleanName "Redo Size (MB/s)") = true /\
  clean_bytes_only (cleanName "Redo Size (MB/s)").
Proof. apply (cleanName_bytes_only "Redo Size (MB/s)"). reflexivity. Defined.

Lemma columnIndex_ignores_case_witness :
  columnIndex (GoStrings.ToLower "Table Name") (GoStrings.ToLower <$> ["OWNER"; "TABLE NAME"])
  = columnIndex "Table Name" ["OWNER"; "TABLE NAME"] /\
  columnIndex "Table Name" ["OWNER"; "TABLE NAME"] = 1.
Proof.
  split; [|reflexivity].
  apply (columnIndex_ignores_case "Table Name" ["OWNER"; "TABLE NAME"]); [reflexivity|].
  repeat constructor.
Defined.

Lemma cleanName_ignores_case_witness :
  GoStrings.ToLower "Buffer Cache (Hit/Ratio)" = GoStrings.ToLower "BUFFER CACHE (HIT/RATIO)" /\
  cleanName "Buffer Cache (Hit/Ratio)" = cleanName "BUFFER CACHE (HIT/RATIO)" /\
  cleanName "Buffer Cache (Hit/Ratio)" = "buffer_cache_hitratio".
Proof.
  split; [reflexivity|]. split; [|reflexivity].
  apply (cleanName_ignores_case "Buffer Cache (Hit/Ratio)" "BUFFER CACHE (HIT/RATIO)");
    reflexivity.
Defined.

Lemma splitConnStr_user_host_service_witness :
  splitConnStr ("oracle://scott:tiger" ++ "@" ++ "db1:1521" ++ "/" ++ "orcl" ++ "?TIMEOUT=5")
  = ("db1:1521", "orcl").
Proof.
  apply splitConnStr_user_host_service; try reflexivity.
  right. exists "TIMEOUT=5". repeat split.
Defined.

Lemma splitConnStr_placeholders_witness :
  splitConnStr "" = ("??", "???") /\ splitConnStr ("scott" ++ "@" ++ "db1:1521") = ("??", "???").
Proof.
  destruct (splitConnStr_placeholders "") as [H1 _].
  destruct (splitConnStr_placeholders ("scott" ++ "@" ++ "db1:1521")) as [_ H2].
  split; [by apply H1|]. by apply (H2 "scott" "db1:1521").
Defined.

Lemma testConn_report_is_read_back_witness :
  (testConn ex_sql_Open ex_QueryRow_Scan3 "35.2ms" "41.5ms" "scott/tiger@db1:1521/orcl").2
  = ("query time scott/tiger@db1:1521/orcl 41.5ms" ++ newline)%string /\
  execConn ex_ParseFloat false (inl "/opt/exporter/oracle_exporter")
           (testConn ex_sql_Open ex_QueryRow_Scan3 "35.2ms" "41.5ms"
                     "scott/tiger@db1:1521/orcl").2 (ex_world [])
  = (inl (),
     {| exporter :=
          set_used_times (exporter (ex_world []))
            (Prom.Set_ (used_times (exporter (ex_world [])))
               ["db1:1521"; "orcl"; "connectsucc"]
               (F64.div (F64.of_scaled 83 (-1)) (F64.of_Z 1000)));
        logged := [] |}).
Proof.
  split; [reflexivity|].
  apply (testConn_report_is_read_back ex_ParseFloat ex_sql_Open ex_QueryRow_Scan3
           "35.2ms" "41.5ms" "scott/tiger@db1:1521/orcl" "/opt/exporter/oracle_exporter"
           ex_database ("ORCL", "orcl1", "dbhost1") (F64.of_scaled 83 (-1)) (ex_world []));
    try reflexivity.
  unfold valid_utf8. repeat constructor.
Defined.

Lemma execConn_ignores_descriptor_with_blank_witness :
  execConn_line ex_ParseFloat ("query time " ++ "scott/my pass@db1:1521/orcl" ++ " " ++ "41.5ms")
                (ex_world []) = (inl (), ex_world []).
Proof. by apply execConn_ignores_descriptor_with_blank. Defined.

Lemma well_formed_query_writes_float_cells_witness :
  queries_loop (ex_conn [ex_query_a]) ex_database [ex_query_a] (ex_world [ex_query_a]) =
  queries_loop (ex_conn [ex_query_a]) ex_database []
    (with_custom_vec (ex_world [ex_query_a]) "q_a"
       (upsert_all (Prom.NewVec namespace "" "custom_q_a" "" (custom_labels ex_query_a))
                   [(["x"; "5.25e+00"; "a"; "PROD"; "prod1"; "1"], F64.of_Z 7)])).
Proof.
  apply (well_formed_query_writes_float_cells
           (ex_conn [ex_query_a]) ex_database ex_query_a [] ex_rows_a
           (Prom.NewVec namespace "" "custom_q_a" "" (custom_labels ex_query_a))
           (ex_world [ex_query_a])).
  - reflexivity.
  - repeat constructor; vm_compute; discriminate.
  - apply (bool_decide_unpack _). vm_compute. exact I.
  - reflexivity.
  - reflexivity.
  - unfold valid_series, valid_utf8. apply (bool_decide_unpack _). vm_compute. exact I.
Defined.

Lemma custom_query_writes_are_idempotent_witness :
  let writes := result_series (ex_conn [ex_query_a]) ex_query_a (Columns ex_rows_a)
                              (fetch ex_rows_a) 1 in
  let vec := Prom.NewVec namespace "" "custom_q_a" "" (custom_labels ex_query_a) in
  let w1 := with_custom_vec (ex_world [ex_query_a]) "q_a" (upsert_all vec writes) in
  queries_loop (ex_conn [ex_query_a]) ex_database [ex_query_a] w1
  = queries_loop (ex_conn [ex_query_a]) ex_database [] w1 /\
  (forall k, Prom.metrics (upsert_all vec writes) !! k =
             match last_write k writes with
             | Some x => Some x
             | None => Prom.metrics vec !! k
             end).
Proof.
  apply (custom_query_writes_are_idempotent
           (ex_conn [ex_query_a]) ex_database ex_query_a [] ex_rows_a
           (Prom.NewVec namespace "" "custom_q_a" "" (custom_labels ex_query_a))
           (ex_world [ex_query_a])).
  - reflexivity.
  - repeat constructor; vm_compute; discriminate.
  - apply (bool_decide_unpack _). vm_compute. exact I.
  - reflexivity.
  - reflexivity.
  - unfold valid_series, valid_utf8. apply (bool_decide_unpack _). vm_compute. exact I.
Defined.

Lemma clashing_label_names_never_write_witness :
  ~ NoDup (custom_labels ex_query_clash) /\
  ScrapeCustomQueries ex_conn_clash ex_world_clash
  = add_log ex_world_clash
            [(ErrorLevel, Recovered (InconsistentLabels "oracledb_custom_q_clash"))].
Proof.
  assert (Hnd : ~ NoDup (custom_labels ex_query_clash)).
  { apply (bool_decide_unpack _). vm_compute. exact I. }
  assert (Hlabels : Forall (fun label => columnIndex label (Columns ex_rows_clash) <> -1)
                           (Labels ex_query_clash)).
  { repeat constructor. vm_compute. discriminate. }
  split; [exact Hnd|].
  destruct (clashing_label_names_never_write ex_conn_clash ex_database_clash ex_query_clash
              [ex_query_ok] ex_rows_clash
              (Prom.NewVec namespace "" "custom_q_clash" "" (custom_labels ex_query_clash))
              ex_world_clash eq_refl Hlabels Hnd eq_refl eq_refl) as [H|[_ H]].
  - exfalso. vm_compute in H. discriminate.
  - exact (H eq_refl eq_refl).
Defined.

Lemma addCustomsql_registers_last_declaration_witness :
  custom (addCustomsql {| Cfgs := [ex_conn [ex_query_a; ex_query_ok]] |}
                       (NewExporter {| Cfgs := [ex_conn [ex_query_bad]] |})) !! "q_a"
  = Some (declared_vec ex_query_a) /\
  custom (addCustomsql {| Cfgs := [ex_conn [ex_query_a; ex_query_ok]] |}
                       (NewExporter {| Cfgs := [ex_conn [ex_query_bad]] |})) !! "q_bad"
  = Some (declared_vec ex_query_bad).
Proof.
  destruct (addCustomsql_registers_last_declaration
              {| Cfgs := [ex_conn [ex_query_a; ex_query_ok]] |}
              (NewExporter {| Cfgs := [ex_conn [ex_query_bad]] |})) as (_ & Hlook & _ & _).
  split; rewrite Hlook; reflexivity.
Defined.

Lemma connect_placeholder_is_down_witness :
  connect_target ex_sql_Open ex_conf_dummy (ex_world []) =
  (inl (set_db ex_conf_dummy None),
   with_up (ex_world []) ["PLANNED"; "planned1"] (F64.of_Z 0)).
Proof.
  apply connect_placeholder_is_down; try reflexivity.
  unfold valid_utf8. repeat constructor.
Defined.

Lemma connect_open_or_ping_failure_records_nothing_witness :
  connect_target (fun _ => inl ex_database_down) ex_conf_half (ex_world []) =
  (inl (set_db ex_conf_half None), ex_world []).
Proof.
  apply connect_open_or_ping_failure_records_nothing; [discriminate|].
  right. by exists ex_database_down, "ORA-12541: TNS:no listener".
Defined.

Lemma connect_identity_failure_keeps_handle_witness :
  connect_target (fun _ => inl ex_database_noident) ex_conf_half (ex_world []) =
  (inl (set_db ex_conf_half (Some ex_database_noident)),
   add_log (with_up (ex_world []) ["PROD"; ""] (F64.of_Z 0))
           [(ErrorLevel,
             Text "Error connecting to database: ORA-00942: table or view does not exist")]).
Proof.
  apply (connect_identity_failure_keeps_handle _ ex_conf_half ex_database_noident
           "ORA-00942: table or view does not exist"); try reflexivity.
  - discriminate.
  - unfold valid_utf8. repeat constructor.
Defined.


Lemma setTimeout_keeps_range_witness :
  1 < timeout (setTimeout_all ["10"; "99"; "abc"; "1"; "-4"; "14"; "15"] ex_globals) < 15 /\
  config (setTimeout_all ["10"; "99"; "abc"; "1"; "-4"; "14"; "15"] ex_globals)
  = config ex_globals /\
  pwd (setTimeout_all ["10"; "99"; "abc"; "1"; "-4"; "14"; "15"] ex_globals) = pwd ex_globals /\
  closing (setTimeout_all ["10"; "99"; "abc"; "1"; "-4"; "14"; "15"] ex_globals)
  = closing ex_globals /\
  glog (setTimeout_all ["10"; "99"; "abc"; "1"; "-4"; "14"; "15"] ex_globals) = glog ex_globals.
Proof. apply setTimeout_keeps_range. simpl. lia. Defined.

Lemma reloadConfig_success_witness :
  exists e' g',
    reloadConfig (inl "/opt/exporter") (inl "connections: []") ex_yaml_Unmarshal
                 (NewExporter {| Cfgs := [ex_conn [ex_query_ok]] |}) ex_globals
    = Returns (ConfigJson {| Cfgs := [] |}, e') g' /\
    config g' = {| Cfgs := [] |} /\ pwd g' = "/opt/exporter" /\ timeout g' = 5 /\
    closing g' = [config ex_globals] /\
    e' = addCustomsql {| Cfgs := [] |} (NewExporter {| Cfgs := [ex_conn [ex_query_ok]] |}) /\
    dom (custom (NewExporter {| Cfgs := [ex_conn [ex_query_ok]] |})) ⊆ dom (custom e') /\
    (forall conn query, conn ∈ Cfgs {| Cfgs := [] |} -> query ∈ Queries conn ->
                        is_Some (custom e' !! Name query)).
Proof.
  apply (reloadConfig_success "/opt/exporter" "connections: []" ex_yaml_Unmarshal
                              {| Cfgs := [] |}).
  reflexivity.
Defined.
